(** * Shared-memory ring-buffer reader

    A shallow embedding of [frontend/native/src/shared_memory.cc]: the
    [SharedMemoryReader] class that maps a file written by the producer and
    hands out the most recently completed frame.

    Conventions of the embedding.
    - [uint32_t] and [size_t] values are integers of [Z]; every operation of
      the source that can wrap is followed by its reduction modulo [2^32] or
      [2^64] ([size_t] is taken to be 64 bits wide, as on the LP64 targets
      the module is built for).
    - The mapping [buf_] is the list of the bytes mapped at the time of the
      call, or [None] for [nullptr].  A load is bounds checked by the model
      and recorded in an access log, so that what the code reads is part of
      what a run returns.
    - Integer division by zero and a load outside the mapping are undefined
      behaviour in C++; the model stops the run there with the outcome [UB].
    - [ThrowAsJavaScriptException(); return env.Null();] is the outcome
      [Throw]: the caller sees the pending exception, not the returned null. *)

From Stdlib Require Import ZArith List String Bool Lia.
From Stdlib Require Import Strings.Byte.
Import ListNotations.
Local Open Scope Z_scope.

(** ** Machine integers *)

Module Machine.

Definition uint32_max : Z := 2 ^ 32.
Definition size_max : Z := 2 ^ 64.

(** Conversion to (and wrap-around in) [uint32_t]. *)
Definition uint32_t (z : Z) : Z := z mod uint32_max.

(** Conversion to (and wrap-around in) [size_t]. *)
Definition size_t (z : Z) : Z := z mod size_max.

(** [a % b] on unsigned operands; [None] is the division by zero. *)
Definition urem (a b : Z) : option Z :=
  if b =? 0 then None else Some (a mod b).

(** The byte order of the machine: [hdr->field] and [memcpy] into a
    [uint32_t] read four bytes in native order. *)
Inductive byte_order : Type := LittleEndian | BigEndian.

Definition byte_val (b : byte) : Z := Z.of_N (Byte.to_N b).

Definition decode_u32 (bo : byte_order) (b0 b1 b2 b3 : byte) : Z :=
  match bo with
  | LittleEndian =>
      byte_val b0 + 2 ^ 8 * byte_val b1 + 2 ^ 16 * byte_val b2 + 2 ^ 24 * byte_val b3
  | BigEndian =>
      byte_val b3 + 2 ^ 8 * byte_val b2 + 2 ^ 16 * byte_val b1 + 2 ^ 24 * byte_val b0
  end.

End Machine.
Import Machine.

(** ** The mapped region and the runs of a method *)

(** One load from the mapping: [len] bytes starting at byte [off]. *)
Inductive access : Type :=
| Load (off len : Z).

Inductive undefined_behaviour : Type :=
| DivisionByZero
| OutOfBounds (off len : Z).

(** [Napi::Error] and [Napi::TypeError], with their messages. *)
Inductive js_exception : Type :=
| JsError (msg : string)
| JsTypeError (msg : string).

Inductive outcome (A : Type) : Type :=
| Return (a : A)
| Throw (e : js_exception)
| UB (u : undefined_behaviour).
Arguments Return {A} a.
Arguments Throw {A} e.
Arguments UB {A} u.

(** A run: how it ended, and the loads it made, in order. *)
Definition run (A : Type) : Type := (outcome A * list access)%type.

Definition ret {A : Type} (a : A) : run A := (Return a, []).

Definition throw {A : Type} (e : js_exception) : run A := (Throw e, []).

Definition bind {A B : Type} (m : run A) (k : A -> run B) : run B :=
  match m with
  | (Return a, log) => let (o, log') := k a in (o, log ++ log')
  | (Throw e, log) => (Throw e, log)
  | (UB u, log) => (UB u, log)
  end.

Declare Scope run_scope.
Delimit Scope run_scope with run.
Notation "x <- m ;; k" := (bind m (fun x => k))
  (at level 61, m at next level, right associativity) : run_scope.
Local Open Scope run_scope.

(** The bytes [off .. off+len) of a region, when they are all inside it. *)
Definition bytes_at (buf : list byte) (off len : Z) : option (list byte) :=
  if (0 <=? off) && (0 <=? len) && (off + len <=? Z.of_nat (List.length buf))
  then Some (firstn (Z.to_nat len) (skipn (Z.to_nat off) buf))
  else None.

(** The [uint32_t] stored at [off], when its four bytes are inside the region. *)
Definition peek_u32 (bo : byte_order) (buf : list byte) (off : Z) : option Z :=
  match bytes_at buf off 4 with
  | Some [b0; b1; b2; b3] => Some (decode_u32 bo b0 b1 b2 b3)
  | _ => None
  end.

Definition load_u32 (bo : byte_order) (buf : list byte) (off : Z) : run Z :=
  match peek_u32 bo buf off with
  | Some v => (Return v, [Load off 4])
  | None => (UB (OutOfBounds off 4), [Load off 4])
  end.

Definition load_bytes (buf : list byte) (off len : Z) : run (list byte) :=
  match bytes_at buf off len with
  | Some data => (Return data, [Load off len])
  | None => (UB (OutOfBounds off len), [Load off len])
  end.

(** ** Values handed to JavaScript *)

#[local] Set Warnings "-register-all".

Inductive napi_value : Type :=
| Null
| Undefined
| Number (n : Z)
| JsString (s : string)
| Buffer (data : list byte)          (* [Napi::Buffer<uint8_t>::Copy]: owns its bytes *)
| Object (fields : list (string * napi_value)).

(** ** The reader *)

Definition HEADER_SIZE : Z := 64.

(** Byte offsets of the fields of [struct ShmHeader]. *)
Module ShmHeader.
Definition write_index : Z := 0.
Definition frame_count : Z := 4.
Definition slot_size : Z := 8.
Definition ring_size : Z := 12.
Definition width : Z := 16.
Definition height : Z := 20.
End ShmHeader.

Record SharedMemoryReader : Type := {
  path_ : string;
  fd_ : Z;
  buf_ : option (list byte);
  file_size_ : Z
}.

(** The member initialisers: [fd_ = -1], [buf_ = nullptr], [file_size_ = 0]. *)
Definition fresh : SharedMemoryReader :=
  {| path_ := ""; fd_ := -1; buf_ := None; file_size_ := 0 |}.

Definition set_path (this : SharedMemoryReader) (p : string) : SharedMemoryReader :=
  {| path_ := p; fd_ := fd_ this; buf_ := buf_ this; file_size_ := file_size_ this |}.

Definition set_fd (this : SharedMemoryReader) (fd : Z) : SharedMemoryReader :=
  {| path_ := path_ this; fd_ := fd; buf_ := buf_ this; file_size_ := file_size_ this |}.

Definition set_buf (this : SharedMemoryReader) (b : option (list byte)) : SharedMemoryReader :=
  {| path_ := path_ this; fd_ := fd_ this; buf_ := b; file_size_ := file_size_ this |}.

Definition set_file_size (this : SharedMemoryReader) (n : Z) : SharedMemoryReader :=
  {| path_ := path_ this; fd_ := fd_ this; buf_ := buf_ this; file_size_ := n |}.

(** *** The operating system, as the constructor and [DoClose] see it *)

Record os_env : Type := {
  (* [::open(path, O_RDONLY)]: a descriptor, or a negative number *)
  os_open : string -> Z;
  (* [fstat(fd, &st)]: [st.st_size] when it returns 0, [None] otherwise *)
  os_fstat : Z -> option Z;
  (* [mmap(nullptr, len, PROT_READ, MAP_SHARED, fd, 0)]: the bytes mapped,
     or [None] for [MAP_FAILED] *)
  os_mmap : Z -> Z -> option (list byte)
}.

Inductive syscall : Type :=
| sys_open (path : string) (fd : Z)
| sys_fstat (fd : Z)
| sys_mmap (len fd : Z) (ok : bool)
| sys_munmap (len : Z)
| sys_close (fd : Z).

(** [DoClose]: the state it leaves and the system calls it makes. *)
Definition DoClose (this : SharedMemoryReader) : SharedMemoryReader * list syscall :=
  let '(this, t1) :=
    match buf_ this with
    | Some _ => (set_buf this None, [sys_munmap (file_size_ this)])
    | None => (this, [])
    end in
  let '(this, t2) :=
    if 0 <=? fd_ this
    then (set_fd this (-1), [sys_close (fd_ this)])
    else (this, [])
    in
  (this, t1 ++ t2).

(** The constructor: the object it leaves, the exception it throws (if any)
    and the system calls it makes. *)
Definition construct (env : os_env) (info : list napi_value)
  : SharedMemoryReader * option js_exception * list syscall :=
  let this := fresh in
  match info with
  | JsString path :: _ =>
      let this := set_path this path in
      let this := set_fd this (os_open env (path_ this)) in
      let t_open := [sys_open (path_ this) (fd_ this)] in
      if fd_ this <? 0 then
        (this,
         Some (JsError (String.append "Failed to open shared memory file: " (path_ this))),
         t_open)
      else
        let st := os_fstat env (fd_ this) in
        let t_stat := t_open ++ [sys_fstat (fd_ this)] in
        match st with
        | Some st_size =>
            if st_size <? HEADER_SIZE then
              (set_fd this (-1),
               Some (JsError "Shared memory file too small or stat failed"),
               t_stat ++ [sys_close (fd_ this)])
            else
              let this := set_file_size this (size_t st_size) in
              match os_mmap env (file_size_ this) (fd_ this) with
              | Some mapped =>
                  (set_buf this (Some mapped), None,
                   t_stat ++ [sys_mmap (file_size_ this) (fd_ this) true])
              | None =>
                  (set_fd (set_buf this None) (-1),
                   Some (JsError "mmap failed for shared memory file"),
                   t_stat ++ [sys_mmap (file_size_ this) (fd_ this) false;
                              sys_close (fd_ this)])
              end
        | None =>
            (set_fd this (-1),
             Some (JsError "Shared memory file too small or stat failed"),
             t_stat ++ [sys_close (fd_ this)])
        end
  | _ => (this, Some (JsTypeError "Expected string path argument"), [])
  end.

(** *** The offset arithmetic of [ReadLatestFrame], in [size_t] *)

(** [HEADER_SIZE + (static_cast<size_t>(slot) * slot_size)] *)
Definition slot_offset (slot slot_size : Z) : Z :=
  size_t (HEADER_SIZE + size_t (size_t slot * slot_size)).

(** [offset + 4] *)
Definition prefix_end (offset : Z) : Z := size_t (offset + 4).

(** [offset + 4 + length] *)
Definition payload_end (offset length : Z) : Z :=
  size_t (size_t (offset + 4) + length).

Definition msg_closed : string := "SharedMemoryReader is closed".
Definition msg_bounds : string := "Slot offset exceeds file size".

Section Methods.

(** The byte order of the machine the reader runs on. *)
Variable native : byte_order.

Definition ReadLatestFrame (this : SharedMemoryReader) : run napi_value :=
  match buf_ this with
  | None => throw (JsError msg_closed)
  | Some buf =>
      write_idx <- load_u32 native buf ShmHeader.write_index ;;
      ring_size <- load_u32 native buf ShmHeader.ring_size ;;
      slot_size <- load_u32 native buf ShmHeader.slot_size ;;
      if write_idx =? 0 then ret Null
      else
        match urem (uint32_t (write_idx - 1)) ring_size with
        | None => (UB DivisionByZero, [])
        | Some slot =>
            let offset := slot_offset slot slot_size in
            if prefix_end offset >? file_size_ this then
              throw (JsError msg_bounds)
            else
              length <- load_u32 native buf offset ;;
              if (length =? 0) || (payload_end offset length >? file_size_ this)
              then ret Null
              else
                data <- load_bytes buf (offset + 4) length ;;
                ret (Buffer data)
        end
  end.

Definition GetWriteIndex (this : SharedMemoryReader) : run napi_value :=
  match buf_ this with
  | None => ret (Number (-1))
  | Some buf =>
      write_index <- load_u32 native buf ShmHeader.write_index ;;
      ret (Number write_index)
  end.

Definition GetMetadata (this : SharedMemoryReader) : run napi_value :=
  match buf_ this with
  | None => throw (JsError msg_closed)
  | Some buf =>
      write_index <- load_u32 native buf ShmHeader.write_index ;;
      frame_count <- load_u32 native buf ShmHeader.frame_count ;;
      slot_size <- load_u32 native buf ShmHeader.slot_size ;;
      ring_size <- load_u32 native buf ShmHeader.ring_size ;;
      width <- load_u32 native buf ShmHeader.width ;;
      height <- load_u32 native buf ShmHeader.height ;;
      ret (Object [("writeIndex", Number write_index);
                   ("frameCount", Number frame_count);
                   ("slotSize", Number slot_size);
                   ("ringSize", Number ring_size);
                   ("width", Number width);
                   ("height", Number height)]%string)
  end.

End Methods.

(** [Close]: [DoClose], then [undefined]. *)
Definition Close (this : SharedMemoryReader)
  : SharedMemoryReader * napi_value * list syscall :=
  let (this, t) := DoClose this in (this, Undefined, t).

(** ** Open handles *)

(** The state the constructor leaves when it succeeds, for as long as the
    handle is not closed: [buf_] points to [file_size_] mapped bytes, and
    there are at least [HEADER_SIZE] of them. *)
Definition opened (this : SharedMemoryReader) (buf : list byte) : Prop :=
  buf_ this = Some buf /\
  file_size_ this = Z.of_nat (List.length buf) /\
  HEADER_SIZE <= file_size_ this.

(** What the system must grant for a successful constructor to leave an
    [opened] handle: [st_size] is an [off_t], and [mmap] maps as many bytes
    as it was asked for. *)
Definition os_sound (env : os_env) : Prop :=
  (forall fd sz, os_fstat env fd = Some sz -> sz < 2 ^ 63) /\
  (forall len fd mapped,
      os_mmap env len fd = Some mapped -> Z.of_nat (List.length mapped) = len).

(** The loads of the three header fields [ReadLatestFrame] decodes. *)
Definition header_loads : list access :=
  [Load ShmHeader.write_index 4; Load ShmHeader.ring_size 4; Load ShmHeader.slot_size 4].

(** A load that stays inside a region of [n] bytes. *)
Definition in_bounds (n : Z) (a : access) : Prop :=
  match a with
  | Load off len => 0 <= off /\ 0 <= len /\ off + len <= n
  end.

(** Descriptors a trace of system calls leaves open. *)
Fixpoint open_fds (t : list syscall) (held : list Z) : list Z :=
  match t with
  | [] => held
  | sys_open _ fd :: t' => open_fds t' (if fd <? 0 then held else fd :: held)
  | sys_close fd :: t' => open_fds t' (List.remove Z.eq_dec fd held)
  | _ :: t' => open_fds t' held
  end.

(** Mappings a trace of system calls leaves in place. *)
Fixpoint live_mappings (t : list syscall) (held : nat) : nat :=
  match t with
  | [] => held
  | sys_mmap _ _ true :: t' => live_mappings t' (S held)
  | sys_munmap _ :: t' => live_mappings t' (Nat.pred held)
  | _ :: t' => live_mappings t' held
  end.

(** A run that stays inside a region of [n] bytes: all its loads do, and it
    did not stop on a load outside it. *)
Definition safe_run {A : Type} (n : Z) (r : run A) : Prop :=
  Forall (in_bounds n) (snd r) /\
  forall off len, fst r <> UB (OutOfBounds off len).

(** The latest completed slot and its byte offset, in unbounded integers. *)
Definition latest_slot (k R : Z) : Z := (k - 1) mod R.
Definition latest_offset (k R S : Z) : Z := HEADER_SIZE + latest_slot k R * S.

(** [DoClose], [n] times over. *)
Definition close_times (n : nat) (this : SharedMemoryReader) : SharedMemoryReader :=
  Nat.iter n (fun h => fst (DoClose h)) this.

(** *** A small ring to run the methods on

    A 96-byte file: the header, then four slots of eight bytes.  The
    low byte of [write_index], of [ring_size] and of the length prefix of
    slot 0 are left open; slot 0 holds the bytes [aa bb cc dd]. *)
Definition demo_mapping (write_index ring_size len0 : byte) : list byte :=
  [write_index; x00; x00; x00] ++            (* write_index *)
  [x05; x00; x00; x00] ++                    (* frame_count *)
  [x08; x00; x00; x00] ++                    (* slot_size = 8 *)
  [ring_size; x00; x00; x00] ++              (* ring_size *)
  repeat x00 48 ++                           (* width, height, reserved *)
  [len0; x00; x00; x00; xaa; xbb; xcc; xdd] ++   (* slot 0 *)
  repeat x00 24.                             (* slots 1, 2, 3 *)

Definition demo_handle (write_index ring_size len0 : byte) : SharedMemoryReader :=
  {| path_ := "/tmp/frames";
     fd_ := 3;
     buf_ := Some (demo_mapping write_index ring_size len0);
     file_size_ := 96 |}.

(** A system in which ["/tmp/frames"] is that file and nothing else exists. *)
Definition demo_env (write_index ring_size len0 : byte) : os_env :=
  {| os_open := fun path => if String.eqb path "/tmp/frames" then 3 else -1;
     os_fstat := fun fd => if fd =? 3 then Some 96 else None;
     os_mmap := fun len fd =>
       if fd =? 3
       then Some (firstn (Z.to_nat len) (demo_mapping write_index ring_size len0))
       else None |}.

(** Systems in which the constructor fails: a file of 10 bytes, a failing
    [fstat], a failing [mmap]. *)
Definition short_file_env : os_env :=
  {| os_open := fun _ => 3;
     os_fstat := fun _ => Some 10;
     os_mmap := fun _ _ => None |}.

Definition no_mmap_env : os_env :=
  {| os_open := fun _ => 3;
     os_fstat := fun _ => Some 96;
     os_mmap := fun _ _ => None |}.

(** *** Calls from JavaScript, and the writer on the other side

    [Init] registers four instance methods on the class, under the names
    [readLatestFrame], [getWriteIndex], [getMetadata] and [close]. *)
Inductive method : Type :=
| readLatestFrame
| getWriteIndex
| getMetadata
| close.

(** One call: the object afterwards, the run of the method, and the system
    calls it made. *)
Definition invoke (native : byte_order) (m : method) (this : SharedMemoryReader)
  : SharedMemoryReader * run napi_value * list syscall :=
  match m with
  | readLatestFrame => (this, ReadLatestFrame native this, [])
  | getWriteIndex => (this, GetWriteIndex native this, [])
  | getMetadata => (this, GetMetadata native this, [])
  | close => let '(this', v, t) := Close this in (this', ret v, t)
  end.

(** A sequence of calls on one object: the object afterwards and all the
    system calls made, in order. *)
Fixpoint invoke_all (native : byte_order) (ms : list method)
         (this : SharedMemoryReader) : SharedMemoryReader * list syscall :=
  match ms with
  | [] => (this, [])
  | m :: ms' =>
      let '(this', _, t) := invoke native m this in
      let (last, t') := invoke_all native ms' this' in
      (last, t ++ t')
  end.

(** What can happen to an object between its construction and its
    destruction: a call, or (the mapping being [MAP_SHARED]) the writer
    process replacing mapped bytes by others, as many as there were. *)
Inductive step (native : byte_order) : SharedMemoryReader -> SharedMemoryReader -> Prop :=
| step_invoke (m : method) (this : SharedMemoryReader) :
    step native this (fst (fst (invoke native m this)))
| step_writer (this : SharedMemoryReader) (buf buf' : list byte) :
    buf_ this = Some buf ->
    List.length buf' = List.length buf ->
    step native this (set_buf this (Some buf')).

(** Any number of such steps. *)
Inductive steps (native : byte_order) : SharedMemoryReader -> SharedMemoryReader -> Prop :=
| steps_none (this : SharedMemoryReader) : steps native this this
| steps_more (this mid last : SharedMemoryReader) :
    steps native this mid -> step native mid last -> steps native this last.

(** The state of an object outside its constructor: either it holds a
    mapping of [file_size_] bytes, at least a header, and a descriptor, or it
    holds neither. *)
Definition consistent (this : SharedMemoryReader) : Prop :=
  match buf_ this with
  | Some buf =>
      file_size_ this = Z.of_nat (List.length buf) /\
      HEADER_SIZE <= file_size_ this /\
      0 <= fd_ this
  | None => fd_ this < 0
  end.

(** What an object holds of the system: the descriptor and the mapping of
    an open handle, nothing when [buf_] is null. *)
Definition held_fds (this : SharedMemoryReader) : list Z :=
  match buf_ this with
  | Some _ => [fd_ this]
  | None => []
  end.

Definition held_mappings (this : SharedMemoryReader) : nat :=
  match buf_ this with
  | Some _ => 1%nat
  | None => 0%nat
  end.

(** [close()] from JavaScript, [n] times over. *)
Definition Close_times (n : nat) (this : SharedMemoryReader) : SharedMemoryReader :=
  Nat.iter n (fun h => fst (fst (Close h))) this.

(** A trace of system calls releases only what is held at that moment:
    every [close] is of a descriptor that is open and not yet closed, every
    [munmap] finds a mapping in place.  [fds] and [maps] are what is held
    before the trace. *)
Fixpoint releases_held (t : list syscall) (fds : list Z) (maps : nat) : bool :=
  match t with
  | [] => true
  | sys_open _ fd :: t' => releases_held t' (if fd <? 0 then fds else fd :: fds) maps
  | sys_close fd :: t' =>
      existsb (Z.eqb fd) fds && releases_held t' (List.remove Z.eq_dec fd fds) maps
  | sys_mmap _ _ true :: t' => releases_held t' fds (S maps)
  | sys_munmap _ :: t' => (0 <? maps)%nat && releases_held t' fds (Nat.pred maps)
  | _ :: t' => releases_held t' fds maps
  end.

(** The header fields [ReadLatestFrame] decodes. *)
Definition decoded_header (native : byte_order) (buf : list byte) (k R S : Z) : Prop :=
  peek_u32 native buf ShmHeader.write_index = Some k /\
  peek_u32 native buf ShmHeader.ring_size = Some R /\
  peek_u32 native buf ShmHeader.slot_size = Some S.

(** The five ways [ReadLatestFrame] runs on an open handle. *)
Inductive read_shape (native : byte_order) (this : SharedMemoryReader)
          (buf : list byte) : run napi_value -> Prop :=
| shape_no_frame (k R S : Z) :
    decoded_header native buf k R S -> k = 0 ->
    read_shape native this buf (Return Null, header_loads)
| shape_division (k R S : Z) :
    decoded_header native buf k R S -> 0 < k -> R = 0 ->
    read_shape native this buf (UB DivisionByZero, header_loads)
| shape_bounds (k R S : Z) :
    decoded_header native buf k R S -> 0 < k -> 0 < R ->
    file_size_ this < latest_offset k R S + 4 ->
    read_shape native this buf (Throw (JsError msg_bounds), header_loads)
| shape_absent (k R S L : Z) :
    decoded_header native buf k R S -> 0 < k -> 0 < R ->
    latest_offset k R S + 4 <= file_size_ this ->
    peek_u32 native buf (latest_offset k R S) = Some L ->
    L = 0 \/ file_size_ this < latest_offset k R S + 4 + L ->
    read_shape native this buf
      (Return Null, header_loads ++ [Load (latest_offset k R S) 4])
| shape_frame (k R S L : Z) :
    decoded_header native buf k R S -> 0 < k -> 0 < R ->
    peek_u32 native buf (latest_offset k R S) = Some L ->
    0 < L -> latest_offset k R S + 4 + L <= file_size_ this ->
    read_shape native this buf
      (Return (Buffer (firstn (Z.to_nat L)
                         (skipn (Z.to_nat (latest_offset k R S + 4)) buf))),
       header_loads ++ [Load (latest_offset k R S) 4;
                        Load (latest_offset k R S + 4) L]).

(** Two regions hold the same bytes where a load reads. *)
Definition agree_on (buf1 buf2 : list byte) (a : access) : Prop :=
  match a with
  | Load off len => bytes_at buf1 off len = bytes_at buf2 off len
  end.

(** The value of a field of the object [GetMetadata] returns. *)
Fixpoint field (name : string) (fields : list (string * napi_value)) : option napi_value :=
  match fields with
  | [] => None
  | (n, v) :: rest => if String.eqb n name then Some v else field name rest
  end.

(** The system of [demo_env], with an [mmap] that refuses any length but
    the size of the file. *)
Definition strict_env (write_index ring_size len0 : byte) : os_env :=
  {| os_open := fun path => if String.eqb path "/tmp/frames" then 3 else -1;
     os_fstat := fun fd => if fd =? 3 then Some 96 else None;
     os_mmap := fun len fd =>
       if (fd =? 3) && (len =? 96)
       then Some (demo_mapping write_index ring_size len0)
       else None |}.

(** The arguments of [new SharedMemoryReader("/tmp/frames")]. *)
Definition demo_frames : list napi_value := [JsString "/tmp/frames"].

(** ** Bytes and loads *)

Lemma byte_val_range (b : byte) : 0 <= byte_val b < 256.
Proof.
  unfold byte_val. pose proof (Byte.to_N_bounded b) as Hb. lia.
Qed.

Lemma decode_u32_range (bo : byte_order) (b0 b1 b2 b3 : byte) :
  0 <= decode_u32 bo b0 b1 b2 b3 < uint32_max.
Proof.
  pose proof (byte_val_range b0). pose proof (byte_val_range b1).
  pose proof (byte_val_range b2). pose proof (byte_val_range b3).
  unfold uint32_max. destruct bo; cbn [decode_u32]; lia.
Qed.

Lemma bytes_at_inside (buf : list byte) (off len : Z) :
  0 <= off -> 0 <= len -> off + len <= Z.of_nat (List.length buf) ->
  bytes_at buf off len = Some (firstn (Z.to_nat len) (skipn (Z.to_nat off) buf)).
Proof.
  intros Hoff Hlen Hend. unfold bytes_at.
  destruct (Z.leb_spec 0 off); [|lia].
  destruct (Z.leb_spec 0 len); [|lia].
  destruct (Z.leb_spec (off + len) (Z.of_nat (List.length buf))); [|lia].
  reflexivity.
Qed.

Lemma bytes_at_Some (buf : list byte) (off len : Z) (data : list byte) :
  bytes_at buf off len = Some data ->
  0 <= off /\ 0 <= len /\ off + len <= Z.of_nat (List.length buf) /\
  data = firstn (Z.to_nat len) (skipn (Z.to_nat off) buf) /\
  Z.of_nat (List.length data) = len.
Proof.
  unfold bytes_at.
  destruct (Z.leb_spec 0 off); cbn [andb]; [|discriminate].
  destruct (Z.leb_spec 0 len); cbn [andb]; [|discriminate].
  destruct (Z.leb_spec (off + len) (Z.of_nat (List.length buf))); [|discriminate].
  intros [= <-]. repeat split; try assumption.
  rewrite length_firstn, length_skipn. lia.
Qed.

Lemma peek_u32_inside (bo : byte_order) (buf : list byte) (off : Z) :
  0 <= off -> off + 4 <= Z.of_nat (List.length buf) ->
  exists v, peek_u32 bo buf off = Some v /\ 0 <= v < uint32_max.
Proof.
  intros Hoff Hend. unfold peek_u32.
  destruct (bytes_at buf off 4) as [data|] eqn:E.
  - apply bytes_at_Some in E. destruct E as (_ & _ & _ & _ & Hlen).
    destruct data as [|b0 [|b1 [|b2 [|b3 [|b4 rest]]]]]; cbn in Hlen; try lia.
    eexists. split; [reflexivity | apply decode_u32_range].
  - rewrite bytes_at_inside in E by lia. discriminate.
Qed.

Lemma peek_u32_Some (bo : byte_order) (buf : list byte) (off v : Z) :
  peek_u32 bo buf off = Some v ->
  0 <= off /\ off + 4 <= Z.of_nat (List.length buf) /\ 0 <= v < uint32_max.
Proof.
  unfold peek_u32. destruct (bytes_at buf off 4) as [data|] eqn:E; [|discriminate].
  apply bytes_at_Some in E. destruct E as (H0 & _ & H1 & _ & _).
  destruct data as [|b0 [|b1 [|b2 [|b3 [|b4 rest]]]]]; try discriminate.
  intros [= <-]. repeat split; try assumption; apply decode_u32_range.
Qed.

Lemma bind_load_u32 {B : Type} (bo : byte_order) (buf : list byte) (off v : Z)
      (k : Z -> run B) :
  peek_u32 bo buf off = Some v ->
  bind (load_u32 bo buf off) k = (fst (k v), Load off 4 :: snd (k v)).
Proof.
  intros E. unfold load_u32. rewrite E. cbn [bind].
  destruct (k v). reflexivity.
Qed.

(** ** The offset arithmetic does not wrap *)

Lemma slot_offset_exact (slot slot_size : Z) :
  0 <= slot < uint32_max -> 0 <= slot_size < uint32_max ->
  slot_offset slot slot_size = HEADER_SIZE + slot * slot_size.
Proof.
  unfold uint32_max. intros Hs Hz.
  assert (0 <= slot * slot_size <= (2 ^ 32 - 1) * (2 ^ 32 - 1)) by nia.
  unfold slot_offset, size_t, size_max, HEADER_SIZE.
  rewrite (Z.mod_small slot) by lia.
  rewrite (Z.mod_small (slot * slot_size)) by lia.
  apply Z.mod_small. lia.
Qed.

Lemma prefix_end_exact (slot slot_size : Z) :
  0 <= slot < uint32_max -> 0 <= slot_size < uint32_max ->
  prefix_end (slot_offset slot slot_size) = HEADER_SIZE + slot * slot_size + 4.
Proof.
  intros Hs Hz. rewrite slot_offset_exact by assumption.
  unfold uint32_max in *.
  assert (0 <= slot * slot_size <= (2 ^ 32 - 1) * (2 ^ 32 - 1)) by nia.
  unfold prefix_end, size_t, size_max, HEADER_SIZE.
  apply Z.mod_small. lia.
Qed.

Lemma payload_end_exact (slot slot_size len : Z) :
  0 <= slot < uint32_max -> 0 <= slot_size < uint32_max -> 0 <= len < uint32_max ->
  payload_end (slot_offset slot slot_size) len = HEADER_SIZE + slot * slot_size + 4 + len.
Proof.
  intros Hs Hz Hl. unfold payload_end.
  fold (prefix_end (slot_offset slot slot_size)).
  rewrite prefix_end_exact by assumption.
  unfold uint32_max in *.
  assert (0 <= slot * slot_size <= (2 ^ 32 - 1) * (2 ^ 32 - 1)) by nia.
  unfold size_t, size_max, HEADER_SIZE.
  apply Z.mod_small. lia.
Qed.

(** ** The runs of [ReadLatestFrame] on an open handle *)

Section OpenHandle.

Variable native : byte_order.
Variables (this : SharedMemoryReader) (buf : list byte).
Hypothesis Hopen : opened this buf.

(** The three header fields the method decodes. *)
Variables k R S : Z.
Hypothesis Hk : peek_u32 native buf ShmHeader.write_index = Some k.
Hypothesis HR : peek_u32 native buf ShmHeader.ring_size = Some R.
Hypothesis HS : peek_u32 native buf ShmHeader.slot_size = Some S.

Ltac decode_header :=
  unfold ReadLatestFrame;
  rewrite (proj1 Hopen);
  rewrite (bind_load_u32 _ _ _ _ _ Hk); cbv beta;
  rewrite (bind_load_u32 _ _ _ _ _ HR); cbv beta;
  rewrite (bind_load_u32 _ _ _ _ _ HS); cbv beta;
  cbn [fst snd].

Lemma run_no_frame_yet :
  k = 0 -> ReadLatestFrame native this = (Return Null, header_loads).
Proof.
  intros ->. decode_header. reflexivity.
Qed.

Lemma header_ranges :
  0 <= k < uint32_max /\ 0 <= R < uint32_max /\ 0 <= S < uint32_max.
Proof.
  apply peek_u32_Some in Hk, HR, HS. tauto.
Qed.

Lemma run_division_by_zero :
  0 < k -> R = 0 ->
  ReadLatestFrame native this = (UB DivisionByZero, header_loads).
Proof.
  intros Hpos HR0. decode_header.
  destruct (Z.eqb_spec k 0); [lia|].
  unfold urem. rewrite HR0. reflexivity.
Qed.

Lemma latest_slot_range : 0 < R -> 0 <= (latest_slot k R) < R.
Proof.
  intros HRpos. unfold latest_slot. apply Z.mod_pos_bound. assumption.
Qed.

Lemma urem_latest_slot :
  0 < k -> 0 < R -> urem (uint32_t (k - 1)) R = Some (latest_slot k R).
Proof.
  intros Hpos HRpos. destruct header_ranges as (Hkr & _).
  unfold urem, uint32_t. destruct (Z.eqb_spec R 0); [lia|].
  rewrite (Z.mod_small (k - 1)) by lia. reflexivity.
Qed.

Lemma latest_offset_computed :
  0 < R ->
  slot_offset (latest_slot k R) S = latest_offset k R S /\
  prefix_end (slot_offset (latest_slot k R) S) = latest_offset k R S + 4 /\
  forall len, 0 <= len < uint32_max ->
              payload_end (slot_offset (latest_slot k R) S) len = latest_offset k R S + 4 + len.
Proof.
  intros HRpos. destruct header_ranges as (_ & HRr & HSr).
  pose proof (latest_slot_range HRpos) as Hslot.
  assert (0 <= (latest_slot k R) < uint32_max) by lia.
  split; [|split].
  - apply slot_offset_exact; assumption.
  - apply prefix_end_exact; assumption.
  - intros len Hlen. apply payload_end_exact; assumption.
Qed.

Ltac select_slot Hpos HRpos :=
  decode_header;
  destruct (Z.eqb_spec k 0); [lia|];
  rewrite (urem_latest_slot Hpos HRpos);
  destruct (latest_offset_computed HRpos) as (Hoff & Hpre & Hpay);
  cbv zeta; rewrite Hpre, Z.gtb_ltb.

Lemma run_prefix_out_of_bounds :
  0 < k -> 0 < R -> file_size_ this < latest_offset k R S + 4 ->
  ReadLatestFrame native this = (Throw (JsError msg_bounds), header_loads).
Proof.
  intros Hpos HRpos Hout. select_slot Hpos HRpos.
  destruct (Z.ltb_spec (file_size_ this) (latest_offset k R S + 4)); [|lia].
  reflexivity.
Qed.

Lemma run_absent (L : Z) :
  0 < k -> 0 < R -> latest_offset k R S + 4 <= file_size_ this ->
  peek_u32 native buf (latest_offset k R S) = Some L ->
  L = 0 \/ file_size_ this < latest_offset k R S + 4 + L ->
  ReadLatestFrame native this = (Return Null, header_loads ++ [Load (latest_offset k R S) 4]).
Proof.
  intros Hpos HRpos Hin HL Hrej. select_slot Hpos HRpos.
  destruct (Z.ltb_spec (file_size_ this) (latest_offset k R S + 4)); [lia|].
  rewrite Hoff, (bind_load_u32 _ _ _ _ _ HL). cbv beta.
  rewrite <- Hoff, Hpay, Z.gtb_ltb by (apply peek_u32_Some in HL; tauto).
  destruct (Z.eqb_spec L 0) as [->|HL0]; [reflexivity|].
  destruct (Z.ltb_spec (file_size_ this) (latest_offset k R S + 4 + L)); [|lia].
  reflexivity.
Qed.

Lemma run_frame (L : Z) :
  0 < k -> 0 < R ->
  peek_u32 native buf (latest_offset k R S) = Some L ->
  0 < L -> latest_offset k R S + 4 + L <= file_size_ this ->
  ReadLatestFrame native this =
    (Return (Buffer (firstn (Z.to_nat L) (skipn (Z.to_nat (latest_offset k R S + 4)) buf))),
     header_loads ++ [Load (latest_offset k R S) 4; Load (latest_offset k R S + 4) L]).
Proof.
  intros Hpos HRpos HL HLpos Hin. select_slot Hpos HRpos.
  pose proof (latest_slot_range HRpos) as Hslot.
  destruct header_ranges as (_ & _ & HSr).
  assert (HEADER_SIZE <= latest_offset k R S)
    by (unfold latest_offset, HEADER_SIZE; nia).
  destruct (Z.ltb_spec (file_size_ this) (latest_offset k R S + 4)); [lia|].
  rewrite Hoff, (bind_load_u32 _ _ _ _ _ HL). cbv beta.
  rewrite <- Hoff, Hpay, Z.gtb_ltb by (apply peek_u32_Some in HL; tauto).
  destruct (Z.eqb_spec L 0) as [->|HL0]; [lia|].
  destruct (Z.ltb_spec (file_size_ this) (latest_offset k R S + 4 + L)); [lia|].
  cbn [orb]. unfold load_bytes. rewrite Hoff.
  destruct Hopen as (_ & Hsize & _).
  rewrite bytes_at_inside by (unfold HEADER_SIZE in *; lia).
  reflexivity.
Qed.

(** Inside the mapping the length prefix can always be decoded. *)
Lemma prefix_decodable :
  0 < R -> latest_offset k R S + 4 <= file_size_ this ->
  exists L, peek_u32 native buf (latest_offset k R S) = Some L /\ 0 <= L < uint32_max.
Proof.
  intros HRpos Hin. destruct Hopen as (_ & Hsize & _).
  pose proof (latest_slot_range HRpos) as Hslot.
  destruct header_ranges as (_ & _ & HSr).
  apply peek_u32_inside; [unfold latest_offset, HEADER_SIZE; nia | lia].
Qed.

End OpenHandle.

(** ** Header fields of an open handle *)

Lemma header_field (bo : byte_order) (this : SharedMemoryReader) (buf : list byte)
      (off : Z) :
  opened this buf -> 0 <= off -> off + 4 <= HEADER_SIZE ->
  exists v, peek_u32 bo buf off = Some v /\ 0 <= v < uint32_max.
Proof.
  intros (_ & Hsize & Hmin) Hoff Hend. apply peek_u32_inside; lia.
Qed.

Lemma header_loads_in_bounds (n : Z) :
  HEADER_SIZE <= n -> Forall (in_bounds n) header_loads.
Proof.
  unfold HEADER_SIZE, header_loads, ShmHeader.write_index, ShmHeader.ring_size,
    ShmHeader.slot_size.
  intros Hn. repeat constructor; lia.
Qed.

(** ** Closed handles *)

Lemma closed_ReadLatestFrame (bo : byte_order) (this : SharedMemoryReader) :
  buf_ this = None -> ReadLatestFrame bo this = (Throw (JsError msg_closed), []).
Proof.
  intros E. unfold ReadLatestFrame. rewrite E. reflexivity.
Qed.

Lemma closed_GetMetadata (bo : byte_order) (this : SharedMemoryReader) :
  buf_ this = None -> GetMetadata bo this = (Throw (JsError msg_closed), []).
Proof.
  intros E. unfold GetMetadata. rewrite E. reflexivity.
Qed.

Lemma closed_GetWriteIndex (bo : byte_order) (this : SharedMemoryReader) :
  buf_ this = None -> GetWriteIndex bo this = (Return (Number (-1)), []).
Proof.
  intros E. unfold GetWriteIndex. rewrite E. reflexivity.
Qed.

Lemma DoClose_state (this : SharedMemoryReader) :
  buf_ (fst (DoClose this)) = None /\ fd_ (fst (DoClose this)) < 0.
Proof.
  destruct this as [p fd [b|] fs]; unfold DoClose; cbn [buf_ fd_ set_buf];
    destruct (Z.leb_spec 0 fd); cbn; split; (reflexivity || lia).
Qed.

Lemma DoClose_released (this : SharedMemoryReader) :
  buf_ this = None -> fd_ this < 0 -> DoClose this = (this, []).
Proof.
  destruct this as [p fd b fs]. cbn [buf_ fd_]. intros -> Hfd.
  unfold DoClose. cbn [buf_ fd_].
  destruct (Z.leb_spec 0 fd); [lia | reflexivity].
Qed.

Lemma close_times_released (this : SharedMemoryReader) (n : nat) :
  DoClose this = (this, []) -> close_times n this = this.
Proof.
  intros Hnoop. unfold close_times.
  induction n as [|n IH]; [reflexivity|].
  rewrite Nat.iter_succ, IH, Hnoop. reflexivity.
Qed.

(** ** The constructor *)

Lemma remove_only (fd : Z) : List.remove Z.eq_dec fd [fd] = [].
Proof.
  cbn. destruct (Z.eq_dec fd fd); [reflexivity | contradiction].
Qed.

Lemma construct_failure (env : os_env) (info : list napi_value)
      (this : SharedMemoryReader) (exn : js_exception) (t : list syscall) :
  construct env info = (this, Some exn, t) ->
  buf_ this = None /\ fd_ this < 0 /\
  open_fds t [] = [] /\ live_mappings t 0%nat = 0%nat.
Proof.
  unfold construct.
  destruct info as [|[| |n|path|data|fields] rest];
    try (intros [= <- <- <-]; cbn; repeat split; lia).
  cbn [path_ fd_ set_path set_fd fresh].
  destruct (Z.ltb_spec (os_open env path) 0) as [Hneg|Hfd].
  - intros [= <- <- <-]. cbn [buf_ fd_ open_fds live_mappings].
    destruct (Z.ltb_spec (os_open env path) 0); [|lia].
    repeat split; (reflexivity || assumption).
  - destruct (os_fstat env (os_open env path)) as [st_size|].
    + destruct (Z.ltb_spec st_size HEADER_SIZE).
      * intros [= <- <- <-]. cbn [buf_ fd_ open_fds live_mappings app].
        destruct (Z.ltb_spec (os_open env path) 0); [lia|].
        rewrite remove_only. repeat split; (reflexivity || lia).
      * cbn [file_size_ fd_ set_file_size set_buf set_fd path_ buf_].
        destruct (os_mmap env (size_t st_size) (os_open env path)); [discriminate|].
        intros [= <- <- <-]. cbn [buf_ fd_ open_fds live_mappings app].
        destruct (Z.ltb_spec (os_open env path) 0); [lia|].
        rewrite remove_only. repeat split; (reflexivity || lia).
    + intros [= <- <- <-]. cbn [buf_ fd_ open_fds live_mappings app].
      destruct (Z.ltb_spec (os_open env path) 0); [lia|].
      rewrite remove_only. repeat split; (reflexivity || lia).
Qed.

(** A constructor that does not throw leaves an open handle that holds one
    descriptor and one mapping. *)
Lemma construct_success (env : os_env) (info : list napi_value)
      (this : SharedMemoryReader) (t : list syscall) :
  os_sound env ->
  construct env info = (this, None, t) ->
  exists buf, opened this buf /\ 0 <= fd_ this /\
              open_fds t [] = [fd_ this] /\ live_mappings t 0%nat = 1%nat.
Proof.
  intros (Hstat & Hmap). unfold construct.
  destruct info as [|[| |n|path|data|fields] rest]; try discriminate.
  cbn [path_ fd_ set_path set_fd fresh].
  destruct (Z.ltb_spec (os_open env path) 0) as [Hneg|Hfd]; [discriminate|].
  destruct (os_fstat env (os_open env path)) as [st_size|] eqn:Est; [|discriminate].
  destruct (Z.ltb_spec st_size HEADER_SIZE) as [|Hmin]; [discriminate|].
  cbn [file_size_ fd_ set_file_size set_buf set_fd path_ buf_].
  destruct (os_mmap env (size_t st_size) (os_open env path)) as [mapped|] eqn:Em;
    [|discriminate].
  intros [= <- <-]. exists mapped.
  apply Hstat in Est. apply Hmap in Em.
  assert (size_t st_size = st_size) as Hcast
    by (unfold size_t, size_max, HEADER_SIZE in *; apply Z.mod_small; lia).
  unfold opened. cbn [buf_ fd_ file_size_ open_fds live_mappings app].
  destruct (Z.ltb_spec (os_open env path) 0); [lia|].
  rewrite Em, Hcast.
  repeat split; cbn [buf_ fd_ file_size_ set_buf set_fd set_file_size]; (reflexivity || lia).
Qed.

(** ** Every load stays inside the mapping *)

Lemma ReadLatestFrame_safe (bo : byte_order) (this : SharedMemoryReader)
      (buf : list byte) :
  opened this buf ->
  safe_run (Z.of_nat (List.length buf)) (ReadLatestFrame bo this).
Proof.
  intros Hopen.
  destruct (header_field bo this buf ShmHeader.write_index Hopen)
    as (k & Hk & Hkr); [unfold ShmHeader.write_index, HEADER_SIZE; lia ..|].
  destruct (header_field bo this buf ShmHeader.ring_size Hopen)
    as (R & HR & HRr); [unfold ShmHeader.ring_size, HEADER_SIZE; lia ..|].
  destruct (header_field bo this buf ShmHeader.slot_size Hopen)
    as (S & HS & HSr); [unfold ShmHeader.slot_size, HEADER_SIZE; lia ..|].
  pose proof Hopen as (Hbuf & Hsize & Hmin).
  assert (Hhdr : Forall (in_bounds (Z.of_nat (List.length buf))) header_loads)
    by (apply header_loads_in_bounds; lia).
  destruct (Z.eq_dec k 0) as [Hk0|Hk0].
  { rewrite (run_no_frame_yet bo this buf Hopen k R S Hk HR HS Hk0).
    split; [exact Hhdr | discriminate]. }
  assert (0 < k) as Hpos by lia.
  destruct (Z.eq_dec R 0) as [HR0|HR0].
  { rewrite (run_division_by_zero bo this buf Hopen k R S Hk HR HS Hpos HR0).
    split; [exact Hhdr | discriminate]. }
  assert (0 < R) as HRpos by lia.
  pose proof (latest_slot_range k R HRpos) as Hslot.
  assert (HEADER_SIZE <= latest_offset k R S) as Hlow
    by (unfold latest_offset, HEADER_SIZE; nia).
  destruct (Z.lt_ge_cases (file_size_ this) (latest_offset k R S + 4)) as [Hout|Hin].
  { rewrite (run_prefix_out_of_bounds bo this buf Hopen k R S Hk HR HS Hpos HRpos Hout).
    split; [exact Hhdr | discriminate]. }
  destruct (prefix_decodable bo this buf Hopen k R S Hk HR HS HRpos Hin)
    as (L & HL & HLr).
  assert (in_bounds (Z.of_nat (List.length buf)) (Load (latest_offset k R S) 4))
    as Hprefix by (unfold in_bounds, HEADER_SIZE in *; lia).
  destruct (Z.eq_dec L 0) as [HL0|HL0];
    [|destruct (Z.lt_ge_cases (file_size_ this) (latest_offset k R S + 4 + L))
        as [Hpast|Hfits]].
  - rewrite (run_absent bo this buf Hopen k R S Hk HR HS L Hpos HRpos Hin HL
               (or_introl HL0)).
    split; [|discriminate]. cbn [snd]. apply Forall_app. split; [exact Hhdr|].
    constructor; [exact Hprefix | constructor].
  - rewrite (run_absent bo this buf Hopen k R S Hk HR HS L Hpos HRpos Hin HL
               (or_intror Hpast)).
    split; [|discriminate]. cbn [snd]. apply Forall_app. split; [exact Hhdr|].
    constructor; [exact Hprefix | constructor].
  - assert (0 < L) as HLpos by lia.
    rewrite (run_frame bo this buf Hopen k R S Hk HR HS L Hpos HRpos HL HLpos Hfits).
    split; [|discriminate]. cbn [snd]. apply Forall_app. split; [exact Hhdr|].
    constructor; [exact Hprefix|].
    constructor; [|constructor].
    unfold in_bounds, HEADER_SIZE in *. lia.
Qed.

Lemma GetWriteIndex_run (bo : byte_order) (this : SharedMemoryReader)
      (buf : list byte) (k : Z) :
  buf_ this = Some buf ->
  peek_u32 bo buf ShmHeader.write_index = Some k ->
  GetWriteIndex bo this = (Return (Number k), [Load ShmHeader.write_index 4]).
Proof.
  intros Hbuf Hk. unfold GetWriteIndex. rewrite Hbuf.
  rewrite (bind_load_u32 _ _ _ _ _ Hk). reflexivity.
Qed.

Lemma GetMetadata_run (bo : byte_order) (this : SharedMemoryReader)
      (buf : list byte) (w c s r x y : Z) :
  buf_ this = Some buf ->
  peek_u32 bo buf ShmHeader.write_index = Some w ->
  peek_u32 bo buf ShmHeader.frame_count = Some c ->
  peek_u32 bo buf ShmHeader.slot_size = Some s ->
  peek_u32 bo buf ShmHeader.ring_size = Some r ->
  peek_u32 bo buf ShmHeader.width = Some x ->
  peek_u32 bo buf ShmHeader.height = Some y ->
  GetMetadata bo this =
    (Return (Object [("writeIndex", Number w); ("frameCount", Number c);
                     ("slotSize", Number s); ("ringSize", Number r);
                     ("width", Number x); ("height", Number y)]%string),
     [Load ShmHeader.write_index 4; Load ShmHeader.frame_count 4;
      Load ShmHeader.slot_size 4; Load ShmHeader.ring_size 4;
      Load ShmHeader.width 4; Load ShmHeader.height 4]).
Proof.
  intros Hbuf Hw Hc Hs Hr Hx Hy. unfold GetMetadata. rewrite Hbuf.
  rewrite (bind_load_u32 _ _ _ _ _ Hw); cbv beta.
  rewrite (bind_load_u32 _ _ _ _ _ Hc); cbv beta.
  rewrite (bind_load_u32 _ _ _ _ _ Hs); cbv beta.
  rewrite (bind_load_u32 _ _ _ _ _ Hr); cbv beta.
  rewrite (bind_load_u32 _ _ _ _ _ Hx); cbv beta.
  rewrite (bind_load_u32 _ _ _ _ _ Hy); cbv beta.
  reflexivity.
Qed.

Lemma GetWriteIndex_safe (bo : byte_order) (this : SharedMemoryReader)
      (buf : list byte) :
  opened this buf ->
  safe_run (Z.of_nat (List.length buf)) (GetWriteIndex bo this).
Proof.
  intros Hopen.
  destruct (header_field bo this buf ShmHeader.write_index Hopen)
    as (k & Hk & Hkr); [unfold ShmHeader.write_index, HEADER_SIZE; lia ..|].
  destruct Hopen as (Hbuf & Hsize & Hmin).
  rewrite (GetWriteIndex_run bo this buf k Hbuf Hk).
  split; [|discriminate]. cbn [snd].
  repeat constructor; unfold ShmHeader.write_index, HEADER_SIZE in *; lia.
Qed.

Lemma GetMetadata_safe (bo : byte_order) (this : SharedMemoryReader)
      (buf : list byte) :
  opened this buf ->
  safe_run (Z.of_nat (List.length buf)) (GetMetadata bo this).
Proof.
  intros Hopen.
  destruct (header_field bo this buf ShmHeader.write_index Hopen)
    as (w & Hw & _); [unfold ShmHeader.write_index, HEADER_SIZE; lia ..|].
  destruct (header_field bo this buf ShmHeader.frame_count Hopen)
    as (c & Hc & _); [unfold ShmHeader.frame_count, HEADER_SIZE; lia ..|].
  destruct (header_field bo this buf ShmHeader.slot_size Hopen)
    as (s & Hs & _); [unfold ShmHeader.slot_size, HEADER_SIZE; lia ..|].
  destruct (header_field bo this buf ShmHeader.ring_size Hopen)
    as (r & Hr & _); [unfold ShmHeader.ring_size, HEADER_SIZE; lia ..|].
  destruct (header_field bo this buf ShmHeader.width Hopen)
    as (x & Hx & _); [unfold ShmHeader.width, HEADER_SIZE; lia ..|].
  destruct (header_field bo this buf ShmHeader.height Hopen)
    as (y & Hy & _); [unfold ShmHeader.height, HEADER_SIZE; lia ..|].
  destruct Hopen as (Hbuf & Hsize & Hmin).
  rewrite (GetMetadata_run bo this buf w c s r x y Hbuf Hw Hc Hs Hr Hx Hy).
  split; [|discriminate]. cbn [snd].
  unfold ShmHeader.write_index, ShmHeader.frame_count, ShmHeader.slot_size,
    ShmHeader.ring_size, ShmHeader.width, ShmHeader.height, HEADER_SIZE in *.
  repeat constructor; lia.
Qed.

Lemma slice_of_app (pre payload post : list byte) :
  firstn (List.length payload) (skipn (List.length pre) (pre ++ payload ++ post))
  = payload.
Proof.
  rewrite skipn_app, skipn_all, Nat.sub_diag. cbn [skipn app].
  rewrite firstn_app, firstn_all, Nat.sub_diag. cbn [firstn].
  apply app_nil_r.
Qed.

(** ** The scenarios of the specification, run on the small ring *)

Example scenario_no_frame_yet :
  ReadLatestFrame LittleEndian (demo_handle x00 x04 x03) = (Return Null, header_loads) /\
  fst (GetWriteIndex LittleEndian (demo_handle x00 x04 x03)) = Return (Number 0).
Proof. split; reflexivity. Qed.

Example scenario_first_frame :
  fst (ReadLatestFrame LittleEndian (demo_handle x01 x04 x03))
    = Return (Buffer [xaa; xbb; xcc]).
Proof. reflexivity. Qed.

Example scenario_wraparound :
  snd (ReadLatestFrame LittleEndian (demo_handle x05 x04 x03))
    = header_loads ++ [Load 64 4; Load 68 3].
Proof. reflexivity. Qed.

Example scenario_second_slot_empty :
  ReadLatestFrame LittleEndian (demo_handle x02 x04 x03)
    = (Return Null, header_loads ++ [Load 72 4]).
Proof. reflexivity. Qed.

Example scenario_close_twice :
  let closed := fst (DoClose (demo_handle x05 x04 x03)) in
  DoClose (demo_handle x05 x04 x03) = (closed, [sys_munmap 96; sys_close 3]) /\
  fst (ReadLatestFrame LittleEndian closed) = Throw (JsError msg_closed) /\
  DoClose closed = (closed, []).
Proof. repeat split. Qed.

Example scenario_attach :
  construct (demo_env x05 x04 x03) [JsString "/tmp/frames"]
    = (demo_handle x05 x04 x03, None,
       [sys_open "/tmp/frames" 3; sys_fstat 3; sys_mmap 96 3 true]).
Proof. reflexivity. Qed.

Example scenario_attach_missing_file :
  construct (demo_env x05 x04 x03) [JsString "/tmp/nothing"]
    = ({| path_ := "/tmp/nothing"; fd_ := -1; buf_ := None; file_size_ := 0 |},
       Some (JsError "Failed to open shared memory file: /tmp/nothing"),
       [sys_open "/tmp/nothing" (-1)]).
Proof. reflexivity. Qed.

Example scenario_attach_short_file :
  construct short_file_env [JsString "/tmp/frames"]
    = ({| path_ := "/tmp/frames"; fd_ := -1; buf_ := None; file_size_ := 0 |},
       Some (JsError "Shared memory file too small or stat failed"),
       [sys_open "/tmp/frames" 3; sys_fstat 3; sys_close 3]).
Proof. reflexivity. Qed.

Example scenario_attach_without_path :
  construct short_file_env [Number 7]
    = (fresh, Some (JsTypeError "Expected string path argument"), []).
Proof. reflexivity. Qed.

(** * The claims of the specification *)

(** ** Step 3: nothing written yet *)

(** C6.  On an open handle whose header has [write_index = 0],
    [ReadLatestFrame] returns null, whatever the other header fields and the
    slots contain; it reads the three header fields and nothing else. *)
Theorem no_frame_written_returns_null
        (native : byte_order) (this : SharedMemoryReader) (buf : list byte) :
  opened this buf ->
  peek_u32 native buf ShmHeader.write_index = Some 0 ->
  ReadLatestFrame native this = (Return Null, header_loads).
Proof.
  intros Hopen Hk.
  destruct (header_field native this buf ShmHeader.ring_size Hopen)
    as (R & HR & _); [unfold ShmHeader.ring_size, HEADER_SIZE; lia ..|].
  destruct (header_field native this buf ShmHeader.slot_size Hopen)
    as (S & HS & _); [unfold ShmHeader.slot_size, HEADER_SIZE; lia ..|].
  exact (run_no_frame_yet native this buf Hopen 0 R S Hk HR HS eq_refl).
Qed.

Lemma no_frame_written_returns_null_witness :
  ReadLatestFrame LittleEndian (demo_handle x00 x00 xff) = (Return Null, header_loads).
Proof.
  apply (no_frame_written_returns_null
           LittleEndian (demo_handle x00 x00 xff) (demo_mapping x00 x00 xff)).
  - split; [reflexivity | split; [reflexivity | unfold HEADER_SIZE; cbn; lia]].
  - reflexivity.
Defined.

(** ** Step 4: an empty ring *)

(** C1 (the code departs from the claim).  The claim asks for the bounds error
    when [write_index > 0] and [ring_size = 0].  The method has no such guard:
    on the 96-byte file of [demo_env], which the constructor maps without
    complaint, it evaluates [(write_idx - 1) % ring_size] with
    [ring_size = 0], a division by zero, and throws nothing. *)
Theorem ring_size_zero_divides_by_zero (native : byte_order) :
  fst (fst (construct (demo_env x01 x00 x03) [JsString "/tmp/frames"]))
    = demo_handle x01 x00 x03 /\
  opened (demo_handle x01 x00 x03) (demo_mapping x01 x00 x03) /\
  (exists k, peek_u32 native (demo_mapping x01 x00 x03) ShmHeader.write_index = Some k
             /\ 0 < k) /\
  peek_u32 native (demo_mapping x01 x00 x03) ShmHeader.ring_size = Some 0 /\
  ReadLatestFrame native (demo_handle x01 x00 x03) = (UB DivisionByZero, header_loads) /\
  fst (ReadLatestFrame native (demo_handle x01 x00 x03)) <> Throw (JsError msg_bounds).
Proof.
  split; [reflexivity|].
  split; [split; [reflexivity | split; [reflexivity | unfold HEADER_SIZE; cbn; lia]]|].
  destruct native.
  - split; [exists 1; split; [reflexivity | lia]|].
    split; [reflexivity|]. split; [reflexivity | discriminate].
  - split; [exists (2 ^ 24); split; [reflexivity | lia]|].
    split; [reflexivity|]. split; [reflexivity | discriminate].
Qed.

(** ** Step 5: the slot that is read *)

(** C3.  With [write_index = k > 0] and [ring_size = R > 0] the method
    computes slot [(k-1) mod R] and offset [HEADER_SIZE + ((k-1) mod R) * S],
    and after the header it loads from that slot only: nothing when the
    length prefix does not fit into the mapping, else the four bytes of the
    prefix at the offset and, when a frame is returned, the payload right
    after them.  The slot depends on [k] through [(k-1) mod R] alone: the
    index [((k-1) mod R) + 1] of the first generation selects the same slot
    and the same offset. *)
Theorem latest_slot_is_read
        (native : byte_order) (this : SharedMemoryReader) (buf : list byte)
        (k R S : Z) :
  opened this buf ->
  peek_u32 native buf ShmHeader.write_index = Some k ->
  peek_u32 native buf ShmHeader.ring_size = Some R ->
  peek_u32 native buf ShmHeader.slot_size = Some S ->
  0 < k -> 0 < R ->
  urem (uint32_t (k - 1)) R = Some ((k - 1) mod R) /\
  slot_offset ((k - 1) mod R) S = HEADER_SIZE + ((k - 1) mod R) * S /\
  (exists slot_loads,
      snd (ReadLatestFrame native this) = header_loads ++ slot_loads /\
      ((file_size_ this < latest_offset k R S + 4 /\ slot_loads = []) \/
       (latest_offset k R S + 4 <= file_size_ this /\
        (slot_loads = [Load (latest_offset k R S) 4] \/
         exists L, slot_loads = [Load (latest_offset k R S) 4;
                                 Load (latest_offset k R S + 4) L])))) /\
  1 <= latest_slot k R + 1 <= R /\
  latest_slot (latest_slot k R + 1) R = latest_slot k R /\
  latest_offset (latest_slot k R + 1) R S = latest_offset k R S.
Proof.
  intros Hopen Hk HR HS Hpos HRpos.
  pose proof (latest_slot_range k R HRpos) as Hslot.
  destruct (latest_offset_computed native buf k R S Hk HR HS HRpos) as (Hoff & _ & _).
  split; [exact (urem_latest_slot native buf k R S Hk HR HS Hpos HRpos)|].
  split; [exact Hoff|].
  assert (latest_slot (latest_slot k R + 1) R = latest_slot k R) as Hwrap.
  { unfold latest_slot. replace ((k - 1) mod R + 1 - 1) with ((k - 1) mod R) by lia.
    apply Z.mod_mod. lia. }
  split; [|split; [lia | split; [exact Hwrap | unfold latest_offset; now rewrite Hwrap]]].
  destruct (Z.lt_ge_cases (file_size_ this) (latest_offset k R S + 4)) as [Hout|Hin].
  { exists []. rewrite app_nil_r.
    rewrite (run_prefix_out_of_bounds native this buf Hopen k R S Hk HR HS Hpos HRpos Hout).
    split; [reflexivity | left; split; [assumption | reflexivity]]. }
  destruct (prefix_decodable native this buf Hopen k R S Hk HR HS HRpos Hin)
    as (L & HL & HLr).
  destruct (Z.eq_dec L 0) as [HL0|HL0];
    [|destruct (Z.lt_ge_cases (file_size_ this) (latest_offset k R S + 4 + L))
        as [Hpast|Hfits]].
  - exists [Load (latest_offset k R S) 4].
    rewrite (run_absent native this buf Hopen k R S Hk HR HS L Hpos HRpos Hin HL
               (or_introl HL0)).
    split; [reflexivity | right; split; [assumption | left; reflexivity]].
  - exists [Load (latest_offset k R S) 4].
    rewrite (run_absent native this buf Hopen k R S Hk HR HS L Hpos HRpos Hin HL
               (or_intror Hpast)).
    split; [reflexivity | right; split; [assumption | left; reflexivity]].
  - exists [Load (latest_offset k R S) 4; Load (latest_offset k R S + 4) L].
    assert (0 < L) as HLpos by lia.
    rewrite (run_frame native this buf Hopen k R S Hk HR HS L Hpos HRpos HL HLpos Hfits).
    split; [reflexivity | right; split; [assumption | right; exists L; reflexivity]].
Qed.

(** [ring_size = 4], [write_index = 5]: slot [(5-1) mod 4 = 0] at offset 64,
    the slot that [write_index = 1] selects. *)
Lemma latest_slot_is_read_witness :
  urem (uint32_t (5 - 1)) 4 = Some ((5 - 1) mod 4) /\
  slot_offset ((5 - 1) mod 4) 8 = HEADER_SIZE + ((5 - 1) mod 4) * 8 /\
  (exists slot_loads,
      snd (ReadLatestFrame LittleEndian (demo_handle x05 x04 x03))
        = header_loads ++ slot_loads /\
      ((file_size_ (demo_handle x05 x04 x03) < latest_offset 5 4 8 + 4
        /\ slot_loads = []) \/
       (latest_offset 5 4 8 + 4 <= file_size_ (demo_handle x05 x04 x03) /\
        (slot_loads = [Load (latest_offset 5 4 8) 4] \/
         exists L, slot_loads = [Load (latest_offset 5 4 8) 4;
                                 Load (latest_offset 5 4 8 + 4) L])))) /\
  1 <= latest_slot 5 4 + 1 <= 4 /\
  latest_slot (latest_slot 5 4 + 1) 4 = latest_slot 5 4 /\
  latest_offset (latest_slot 5 4 + 1) 4 8 = latest_offset 5 4 8.
Proof.
  apply (latest_slot_is_read
           LittleEndian (demo_handle x05 x04 x03) (demo_mapping x05 x04 x03) 5 4 8).
  - split; [reflexivity | split; [reflexivity | unfold HEADER_SIZE; cbn; lia]].
  - reflexivity.
  - reflexivity.
  - reflexivity.
  - lia.
  - lia.
Defined.

(** ** Step 6: the length prefix does not fit *)

(** C4.  With [write_index > 0] and [ring_size > 0], when the four bytes of
    the length prefix at the slot offset do not all lie inside the mapping
    ([offset + 4 > file_size_]), the method throws the bounds error, having
    read the header only; it does not return null. *)
Theorem unreadable_prefix_throws
        (native : byte_order) (this : SharedMemoryReader) (buf : list byte)
        (k R S : Z) :
  opened this buf ->
  peek_u32 native buf ShmHeader.write_index = Some k ->
  peek_u32 native buf ShmHeader.ring_size = Some R ->
  peek_u32 native buf ShmHeader.slot_size = Some S ->
  0 < k -> 0 < R ->
  HEADER_SIZE + ((k - 1) mod R) * S + 4 > file_size_ this ->
  ReadLatestFrame native this = (Throw (JsError msg_bounds), header_loads) /\
  fst (ReadLatestFrame native this) <> Return Null.
Proof.
  intros Hopen Hk HR HS Hpos HRpos Hout.
  assert (file_size_ this < latest_offset k R S + 4) as Hlt
    by (unfold latest_offset, latest_slot; lia).
  rewrite (run_prefix_out_of_bounds native this buf Hopen k R S Hk HR HS Hpos HRpos Hlt).
  split; [reflexivity | discriminate].
Qed.

(** [ring_size = 8] in a file that holds four slots: [write_index = 6]
    selects slot 5 at offset 104, past the 96 mapped bytes. *)
Lemma unreadable_prefix_throws_witness :
  ReadLatestFrame LittleEndian (demo_handle x06 x08 x03)
    = (Throw (JsError msg_bounds), header_loads) /\
  fst (ReadLatestFrame LittleEndian (demo_handle x06 x08 x03)) <> Return Null.
Proof.
  apply (unreadable_prefix_throws
           LittleEndian (demo_handle x06 x08 x03) (demo_mapping x06 x08 x03) 6 8 8).
  - split; [reflexivity | split; [reflexivity | unfold HEADER_SIZE; cbn; lia]].
  - reflexivity.
  - reflexivity.
  - reflexivity.
  - lia.
  - lia.
  - unfold HEADER_SIZE; cbn; lia.
Defined.

(** ** Steps 8 and 9: an empty slot, a payload that does not fit *)

(** C5.  With [write_index > 0], [ring_size > 0] and the length prefix inside
    the mapping, a decoded length of 0, or one with
    [offset + 4 + length > file_size_], makes the method return null: it
    throws nothing, and reads the prefix but no payload byte. *)
Theorem empty_or_oversized_slot_is_absent
        (native : byte_order) (this : SharedMemoryReader) (buf : list byte)
        (k R S L : Z) :
  opened this buf ->
  peek_u32 native buf ShmHeader.write_index = Some k ->
  peek_u32 native buf ShmHeader.ring_size = Some R ->
  peek_u32 native buf ShmHeader.slot_size = Some S ->
  0 < k -> 0 < R ->
  HEADER_SIZE + ((k - 1) mod R) * S + 4 <= file_size_ this ->
  peek_u32 native buf (HEADER_SIZE + ((k - 1) mod R) * S) = Some L ->
  L = 0 \/ HEADER_SIZE + ((k - 1) mod R) * S + 4 + L > file_size_ this ->
  ReadLatestFrame native this
    = (Return Null, header_loads ++ [Load (HEADER_SIZE + ((k - 1) mod R) * S) 4]).
Proof.
  intros Hopen Hk HR HS Hpos HRpos Hin HL Hrej.
  apply (run_absent native this buf Hopen k R S Hk HR HS L Hpos HRpos Hin HL).
  unfold latest_offset, latest_slot. lia.
Qed.

(** Slot 0 declares 64 bytes, of which the 96-byte mapping holds 28. *)
Lemma empty_or_oversized_slot_is_absent_witness :
  ReadLatestFrame LittleEndian (demo_handle x05 x04 x40)
    = (Return Null, header_loads ++ [Load (HEADER_SIZE + ((5 - 1) mod 4) * 8) 4]).
Proof.
  apply (empty_or_oversized_slot_is_absent
           LittleEndian (demo_handle x05 x04 x40) (demo_mapping x05 x04 x40) 5 4 8 64).
  - split; [reflexivity | split; [reflexivity | unfold HEADER_SIZE; cbn; lia]].
  - reflexivity.
  - reflexivity.
  - reflexivity.
  - lia.
  - lia.
  - unfold HEADER_SIZE; cbn; lia.
  - reflexivity.
  - right. unfold HEADER_SIZE; cbn; lia.
Defined.

(** ** Step 10: the frame *)

(** C7.  When the chosen slot holds a length [L > 0] with
    [offset + 4 + L <= file_size_], the method returns a buffer holding
    exactly the [L] bytes of the mapping from [offset + 4] on: whatever
    payload was laid out there comes back unchanged.  The buffer is made by
    [Napi::Buffer::Copy]; in the model it carries its bytes by value and
    shares nothing with the mapping. *)
Theorem frame_round_trip
        (native : byte_order) (this : SharedMemoryReader) (buf : list byte)
        (k R S L : Z) :
  opened this buf ->
  peek_u32 native buf ShmHeader.write_index = Some k ->
  peek_u32 native buf ShmHeader.ring_size = Some R ->
  peek_u32 native buf ShmHeader.slot_size = Some S ->
  0 < k -> 0 < R ->
  peek_u32 native buf (HEADER_SIZE + ((k - 1) mod R) * S) = Some L ->
  0 < L ->
  HEADER_SIZE + ((k - 1) mod R) * S + 4 + L <= file_size_ this ->
  exists data,
    ReadLatestFrame native this
      = (Return (Buffer data),
         header_loads ++ [Load (HEADER_SIZE + ((k - 1) mod R) * S) 4;
                          Load (HEADER_SIZE + ((k - 1) mod R) * S + 4) L]) /\
    bytes_at buf (HEADER_SIZE + ((k - 1) mod R) * S + 4) L = Some data /\
    Z.of_nat (List.length data) = L /\
    forall pre payload post,
      buf = pre ++ payload ++ post ->
      Z.of_nat (List.length pre) = HEADER_SIZE + ((k - 1) mod R) * S + 4 ->
      Z.of_nat (List.length payload) = L ->
      data = payload.
Proof.
  intros Hopen Hk HR HS Hpos HRpos HL HLpos Hfits.
  pose proof (run_frame native this buf Hopen k R S Hk HR HS L Hpos HRpos HL HLpos Hfits)
    as Hrun.
  unfold latest_offset, latest_slot in Hrun.
  pose proof (latest_slot_range k R HRpos) as Hslot. unfold latest_slot in Hslot.
  destruct (header_ranges native buf k R S Hk HR HS) as (_ & _ & HSr).
  destruct Hopen as (_ & Hsize & _).
  assert (bytes_at buf (HEADER_SIZE + (k - 1) mod R * S + 4) L =
          Some (firstn (Z.to_nat L)
                  (skipn (Z.to_nat (HEADER_SIZE + (k - 1) mod R * S + 4)) buf)))
    as Hbytes by (apply bytes_at_inside; unfold HEADER_SIZE in *; nia).
  eexists. split; [exact Hrun|]. split; [exact Hbytes|].
  split; [apply bytes_at_Some in Hbytes; tauto|].
  intros pre payload post -> Hpre Hpayload.
  rewrite <- Hpre, <- Hpayload, !Nat2Z.id.
  apply slice_of_app.
Qed.

(** Scenario of the specification: slot 0 holds length 3 and [aa bb cc]. *)
Lemma frame_round_trip_witness :
  exists data,
    ReadLatestFrame LittleEndian (demo_handle x05 x04 x03)
      = (Return (Buffer data),
         header_loads ++ [Load (HEADER_SIZE + ((5 - 1) mod 4) * 8) 4;
                          Load (HEADER_SIZE + ((5 - 1) mod 4) * 8 + 4) 3]) /\
    bytes_at (demo_mapping x05 x04 x03) (HEADER_SIZE + ((5 - 1) mod 4) * 8 + 4) 3
      = Some data /\
    Z.of_nat (List.length data) = 3 /\
    forall pre payload post,
      demo_mapping x05 x04 x03 = pre ++ payload ++ post ->
      Z.of_nat (List.length pre) = HEADER_SIZE + ((5 - 1) mod 4) * 8 + 4 ->
      Z.of_nat (List.length payload) = 3 ->
      data = payload.
Proof.
  apply (frame_round_trip
           LittleEndian (demo_handle x05 x04 x03) (demo_mapping x05 x04 x03) 5 4 8 3).
  - split; [reflexivity | split; [reflexivity | unfold HEADER_SIZE; cbn; lia]].
  - reflexivity.
  - reflexivity.
  - reflexivity.
  - lia.
  - lia.
  - reflexivity.
  - lia.
  - unfold HEADER_SIZE; cbn; lia.
Defined.

(** ** Memory safety *)

(** C2.  On an open handle, whatever bytes the mapping holds (header fields
    and length prefix included), every load made by [ReadLatestFrame],
    [GetWriteIndex] and [GetMetadata] lies inside the mapped bytes, whose
    number is the [file_size_] recorded by the constructor, and none of the
    three stops on a load outside them.  ([Close] loads nothing.)  *)
Theorem loads_stay_inside_mapping
        (native : byte_order) (this : SharedMemoryReader) (buf : list byte) :
  opened this buf ->
  file_size_ this = Z.of_nat (List.length buf) /\
  safe_run (file_size_ this) (ReadLatestFrame native this) /\
  safe_run (file_size_ this) (GetWriteIndex native this) /\
  safe_run (file_size_ this) (GetMetadata native this).
Proof.
  intros Hopen. pose proof Hopen as (_ & Hsize & _). rewrite Hsize.
  split; [reflexivity|].
  split; [apply ReadLatestFrame_safe; assumption|].
  split; [apply GetWriteIndex_safe | apply GetMetadata_safe]; assumption.
Qed.

(** A header that lies about the ring: [slot_size = 8] and a length prefix
    of 255 in a mapping of 96 bytes. *)
Lemma loads_stay_inside_mapping_witness :
  file_size_ (demo_handle xff x01 xff)
    = Z.of_nat (List.length (demo_mapping xff x01 xff)) /\
  safe_run (file_size_ (demo_handle xff x01 xff))
           (ReadLatestFrame LittleEndian (demo_handle xff x01 xff)) /\
  safe_run (file_size_ (demo_handle xff x01 xff))
           (GetWriteIndex LittleEndian (demo_handle xff x01 xff)) /\
  safe_run (file_size_ (demo_handle xff x01 xff))
           (GetMetadata LittleEndian (demo_handle xff x01 xff)).
Proof.
  apply (loads_stay_inside_mapping
           LittleEndian (demo_handle xff x01 xff) (demo_mapping xff x01 xff)).
  split; [reflexivity | split; [reflexivity | unfold HEADER_SIZE; cbn; lia]].
Defined.

(** ** Arithmetic *)

(** C9.  For 32-bit header values with [ring_size > 0], the offsets of
    [ReadLatestFrame], computed in 64-bit [size_t], never wrap:
    [HEADER_SIZE + slot * slot_size + 4 + length] stays below [2^64] for
    every [slot < ring_size], every [slot_size] and every [length], so the
    offset and the two ends are the exact integers and both comparisons with
    the file size decide what exact arithmetic decides. *)
Theorem offset_arithmetic_does_not_wrap
        (slot ring_size slot_size len file_size : Z) :
  0 <= slot < ring_size -> ring_size < uint32_max ->
  0 <= slot_size < uint32_max ->
  0 <= len < uint32_max ->
  HEADER_SIZE + slot * slot_size + 4 + len < size_max /\
  slot_offset slot slot_size = HEADER_SIZE + slot * slot_size /\
  prefix_end (slot_offset slot slot_size) = HEADER_SIZE + slot * slot_size + 4 /\
  payload_end (slot_offset slot slot_size) len
    = HEADER_SIZE + slot * slot_size + 4 + len /\
  (prefix_end (slot_offset slot slot_size) >? file_size)
    = (HEADER_SIZE + slot * slot_size + 4 >? file_size) /\
  (payload_end (slot_offset slot slot_size) len >? file_size)
    = (HEADER_SIZE + slot * slot_size + 4 + len >? file_size).
Proof.
  intros Hslot Hring Hsize Hlen.
  assert (0 <= slot < uint32_max) as Hslot32 by lia.
  rewrite (payload_end_exact slot slot_size len Hslot32 Hsize Hlen).
  rewrite (prefix_end_exact slot slot_size Hslot32 Hsize).
  rewrite (slot_offset_exact slot slot_size Hslot32 Hsize).
  repeat split.
  unfold uint32_max, size_max, HEADER_SIZE in *.
  assert (0 <= slot * slot_size <= (2 ^ 32 - 1) * (2 ^ 32 - 1)) by nia.
  lia.
Qed.

(** The largest values the header can hold. *)
Lemma offset_arithmetic_does_not_wrap_witness :
  HEADER_SIZE + 4294967294 * 4294967295 + 4 + 4294967295 < size_max /\
  slot_offset 4294967294 4294967295 = HEADER_SIZE + 4294967294 * 4294967295 /\
  prefix_end (slot_offset 4294967294 4294967295)
    = HEADER_SIZE + 4294967294 * 4294967295 + 4 /\
  payload_end (slot_offset 4294967294 4294967295) 4294967295
    = HEADER_SIZE + 4294967294 * 4294967295 + 4 + 4294967295 /\
  (prefix_end (slot_offset 4294967294 4294967295) >? 96)
    = (HEADER_SIZE + 4294967294 * 4294967295 + 4 >? 96) /\
  (payload_end (slot_offset 4294967294 4294967295) 4294967295 >? 96)
    = (HEADER_SIZE + 4294967294 * 4294967295 + 4 + 4294967295 >? 96).
Proof.
  apply (offset_arithmetic_does_not_wrap 4294967294 4294967295 4294967295 4294967295 96).
  - lia.
  - unfold uint32_max; lia.
  - unfold uint32_max; lia.
  - unfold uint32_max; lia.
Defined.

(** ** Closing *)

(** C8.  [close()] is idempotent on every handle: it returns [undefined] and
    leaves the handle closed ([buf_] null, [fd_] negative, the state [DoClose]
    leaves); closing again, any number of times, through [Close] or through
    the destructor's [DoClose], changes nothing, makes no system call and
    does not fail.  After [close()], [ReadLatestFrame] and [GetMetadata]
    throw the closed error, and [GetWriteIndex] returns [-1] without
    throwing. *)
Theorem close_is_idempotent_and_final
        (native : byte_order) (this : SharedMemoryReader) :
  let closed := fst (fst (Close this)) in
  Close this = (closed, Undefined, snd (DoClose this)) /\
  closed = fst (DoClose this) /\
  buf_ closed = None /\ fd_ closed < 0 /\
  Close closed = (closed, Undefined, []) /\
  DoClose closed = (closed, []) /\
  (forall n, Close_times n closed = closed) /\
  (forall n, close_times n closed = closed) /\
  ReadLatestFrame native closed = (Throw (JsError msg_closed), []) /\
  GetMetadata native closed = (Throw (JsError msg_closed), []) /\
  GetWriteIndex native closed = (Return (Number (-1)), []).
Proof.
  intros closed.
  assert (Close this = (fst (DoClose this), Undefined, snd (DoClose this))) as Hclose
    by (unfold Close; destruct (DoClose this); reflexivity).
  assert (closed = fst (DoClose this)) as Hsame
    by (unfold closed; rewrite Hclose; reflexivity).
  destruct (DoClose_state this) as (Hbuf & Hfd).
  rewrite <- Hsame in Hbuf, Hfd.
  pose proof (DoClose_released closed Hbuf Hfd) as Hnoop.
  assert (Close closed = (closed, Undefined, [])) as Hnoop'
    by (unfold Close; rewrite Hnoop; reflexivity).
  split; [rewrite Hsame; exact Hclose|].
  split; [exact Hsame|].
  split; [exact Hbuf|]. split; [exact Hfd|].
  split; [exact Hnoop'|]. split; [exact Hnoop|].
  split.
  { intros n. unfold Close_times.
    induction n as [|n IH]; [reflexivity|].
    rewrite Nat.iter_succ, IH, Hnoop'. reflexivity. }
  split; [intros n; apply close_times_released; exact Hnoop|].
  split; [apply closed_ReadLatestFrame; assumption|].
  split; [apply closed_GetMetadata | apply closed_GetWriteIndex]; assumption.
Qed.

(** [close()] on an open handle, then a read. *)
Example close_then_read :
  Close (demo_handle x05 x04 x03)
    = ({| path_ := "/tmp/frames"; fd_ := -1; buf_ := None; file_size_ := 96 |},
       Undefined, [sys_munmap 96; sys_close 3]) /\
  ReadLatestFrame LittleEndian (fst (fst (Close (demo_handle x05 x04 x03))))
    = (Throw (JsError msg_closed), []).
Proof. split; reflexivity. Qed.

(** ** A constructor that throws *)

(** C10.  When the constructor throws (the file cannot be opened, [fstat]
    fails or reports fewer than [HEADER_SIZE] bytes, [mmap] fails; a missing
    path argument too), the object is left as [DoClose] leaves one:
    [buf_] is null and [fd_] negative, so that [DoClose] has nothing to
    release, [ReadLatestFrame] and [GetMetadata] throw the closed error and
    [GetWriteIndex] returns [-1]; and the system calls made leave no
    descriptor open and no mapping in place. *)
Theorem failed_construction_is_closed
        (native : byte_order) (env : os_env) (info : list napi_value)
        (this : SharedMemoryReader) (exn : js_exception) (t : list syscall) :
  construct env info = (this, Some exn, t) ->
  buf_ this = None /\ fd_ this < 0 /\
  DoClose this = (this, []) /\
  ReadLatestFrame native this = (Throw (JsError msg_closed), []) /\
  GetMetadata native this = (Throw (JsError msg_closed), []) /\
  GetWriteIndex native this = (Return (Number (-1)), []) /\
  open_fds t [] = [] /\ live_mappings t 0%nat = 0%nat.
Proof.
  intros Hfail.
  destruct (construct_failure env info this exn t Hfail) as (Hbuf & Hfd & Hfds & Hmaps).
  split; [assumption|]. split; [assumption|].
  split; [apply DoClose_released; assumption|].
  split; [apply closed_ReadLatestFrame; assumption|].
  split; [apply closed_GetMetadata; assumption|].
  split; [apply closed_GetWriteIndex; assumption|].
  split; assumption.
Qed.

(** [mmap] fails after [open] and [fstat] succeeded. *)
Lemma failed_construction_is_closed_witness :
  let this := {| path_ := "/tmp/frames"; fd_ := -1; buf_ := None; file_size_ := 96 |} in
  let t := [sys_open "/tmp/frames" 3; sys_fstat 3; sys_mmap 96 3 false; sys_close 3] in
  buf_ this = None /\ fd_ this < 0 /\
  DoClose this = (this, []) /\
  ReadLatestFrame LittleEndian this = (Throw (JsError msg_closed), []) /\
  GetMetadata LittleEndian this = (Throw (JsError msg_closed), []) /\
  GetWriteIndex LittleEndian this = (Return (Number (-1)), []) /\
  open_fds t [] = [] /\ live_mappings t 0%nat = 0%nat.
Proof.
  apply (failed_construction_is_closed
           LittleEndian no_mmap_env [JsString "/tmp/frames"]
           {| path_ := "/tmp/frames"; fd_ := -1; buf_ := None; file_size_ := 96 |}
           (JsError "mmap failed for shared memory file")
           [sys_open "/tmp/frames" 3; sys_fstat 3; sys_mmap 96 3 false; sys_close 3]).
  reflexivity.
Defined.

(** * Further properties of the reader *)

(** ** The runs of [ReadLatestFrame], case by case *)

Lemma decoded_header_exists (bo : byte_order) (this : SharedMemoryReader)
      (buf : list byte) :
  opened this buf ->
  exists k R S, decoded_header bo buf k R S /\
                0 <= k < uint32_max /\ 0 <= R < uint32_max /\ 0 <= S < uint32_max.
Proof.
  intros Hopen.
  destruct (header_field bo this buf ShmHeader.write_index Hopen)
    as (k & Hk & Hkr); [unfold ShmHeader.write_index, HEADER_SIZE; lia ..|].
  destruct (header_field bo this buf ShmHeader.ring_size Hopen)
    as (R & HR & HRr); [unfold ShmHeader.ring_size, HEADER_SIZE; lia ..|].
  destruct (header_field bo this buf ShmHeader.slot_size Hopen)
    as (S & HS & HSr); [unfold ShmHeader.slot_size, HEADER_SIZE; lia ..|].
  exists k, R, S. repeat split; assumption || lia.
Qed.

Lemma ReadLatestFrame_shape (bo : byte_order) (this : SharedMemoryReader)
      (buf : list byte) :
  opened this buf -> read_shape bo this buf (ReadLatestFrame bo this).
Proof.
  intros Hopen.
  destruct (decoded_header_exists bo this buf Hopen)
    as (k & R & S & Hhdr & Hkr & HRr & HSr).
  pose proof Hhdr as (Hk & HR & HS).
  destruct (Z.eq_dec k 0) as [Hk0|Hk0].
  { rewrite (run_no_frame_yet bo this buf Hopen k R S Hk HR HS Hk0).
    exact (shape_no_frame bo this buf k R S Hhdr Hk0). }
  assert (0 < k) as Hpos by lia.
  destruct (Z.eq_dec R 0) as [HR0|HR0].
  { rewrite (run_division_by_zero bo this buf Hopen k R S Hk HR HS Hpos HR0).
    exact (shape_division bo this buf k R S Hhdr Hpos HR0). }
  assert (0 < R) as HRpos by lia.
  destruct (Z.lt_ge_cases (file_size_ this) (latest_offset k R S + 4)) as [Hout|Hin].
  { rewrite (run_prefix_out_of_bounds bo this buf Hopen k R S Hk HR HS Hpos HRpos Hout).
    exact (shape_bounds bo this buf k R S Hhdr Hpos HRpos Hout). }
  destruct (prefix_decodable bo this buf Hopen k R S Hk HR HS HRpos Hin)
    as (L & HL & HLr).
  destruct (Z.eq_dec L 0) as [HL0|HL0];
    [|destruct (Z.lt_ge_cases (file_size_ this) (latest_offset k R S + 4 + L))
        as [Hpast|Hfits]].
  - rewrite (run_absent bo this buf Hopen k R S Hk HR HS L Hpos HRpos Hin HL
               (or_introl HL0)).
    exact (shape_absent bo this buf k R S L Hhdr Hpos HRpos Hin HL (or_introl HL0)).
  - rewrite (run_absent bo this buf Hopen k R S Hk HR HS L Hpos HRpos Hin HL
               (or_intror Hpast)).
    exact (shape_absent bo this buf k R S L Hhdr Hpos HRpos Hin HL (or_intror Hpast)).
  - assert (0 < L) as HLpos by lia.
    rewrite (run_frame bo this buf Hopen k R S Hk HR HS L Hpos HRpos HL HLpos Hfits).
    exact (shape_frame bo this buf k R S L Hhdr Hpos HRpos HL HLpos Hfits).
Qed.

Lemma decoded_header_unique (bo : byte_order) (buf : list byte) (k R S k' R' S' : Z) :
  decoded_header bo buf k R S -> decoded_header bo buf k' R' S' ->
  k' = k /\ R' = R /\ S' = S.
Proof.
  intros (Hk & HR & HS) (Hk' & HR' & HS').
  rewrite Hk in Hk'. rewrite HR in HR'. rewrite HS in HS'.
  injection Hk' as ->. injection HR' as ->. injection HS' as ->. auto.
Qed.

Lemma latest_offset_low (k R S : Z) :
  0 < R -> 0 <= S -> HEADER_SIZE <= latest_offset k R S.
Proof.
  intros HR HS. pose proof (latest_slot_range k R HR).
  unfold latest_offset, HEADER_SIZE. nia.
Qed.

(** On an open handle [ReadLatestFrame] ends in one of four ways: null, a
    buffer, the bounds error, or the division by zero; it never throws the
    closed error and never stops on a load outside the mapping.  The division
    by zero is reached exactly when [write_index] is not 0 and [ring_size]
    is. *)
Theorem open_read_outcomes
        (native : byte_order) (this : SharedMemoryReader) (buf : list byte)
        (k R S : Z) :
  opened this buf ->
  decoded_header native buf k R S ->
  (fst (ReadLatestFrame native this) = Return Null \/
   (exists data, fst (ReadLatestFrame native this) = Return (Buffer data)) \/
   fst (ReadLatestFrame native this) = Throw (JsError msg_bounds) \/
   fst (ReadLatestFrame native this) = UB DivisionByZero) /\
  (fst (ReadLatestFrame native this) = UB DivisionByZero <-> 0 < k /\ R = 0).
Proof.
  intros Hopen Hhdr.
  pose proof (ReadLatestFrame_shape native this buf Hopen) as Hshape.
  remember (ReadLatestFrame native this) as r eqn:Er.
  destruct Hshape as [k' R' S' Hhdr' H0 | k' R' S' Hhdr' Hpos HR0
                      | k' R' S' Hhdr' Hpos HRpos Hout
                      | k' R' S' L Hhdr' Hpos HRpos Hin HL Hrej
                      | k' R' S' L Hhdr' Hpos HRpos HL HLpos Hfits];
    destruct (decoded_header_unique native buf k R S k' R' S' Hhdr Hhdr')
      as (-> & -> & ->); cbn [fst].
  - split; [left; reflexivity|]. split; [discriminate | lia].
  - split; [right; right; right; reflexivity|]. split; [tauto | reflexivity].
  - split; [right; right; left; reflexivity|]. split; [discriminate | lia].
  - split; [left; reflexivity|]. split; [discriminate | lia].
  - split; [right; left; eexists; reflexivity|]. split; [discriminate | lia].
Qed.

Lemma open_read_outcomes_witness :
  (fst (ReadLatestFrame LittleEndian (demo_handle x05 x04 x03)) = Return Null \/
   (exists data,
       fst (ReadLatestFrame LittleEndian (demo_handle x05 x04 x03)) = Return (Buffer data)) \/
   fst (ReadLatestFrame LittleEndian (demo_handle x05 x04 x03)) = Throw (JsError msg_bounds) \/
   fst (ReadLatestFrame LittleEndian (demo_handle x05 x04 x03)) = UB DivisionByZero) /\
  (fst (ReadLatestFrame LittleEndian (demo_handle x05 x04 x03)) = UB DivisionByZero
   <-> 0 < 5 /\ 4 = 0).
Proof.
  apply (open_read_outcomes
           LittleEndian (demo_handle x05 x04 x03) (demo_mapping x05 x04 x03) 5 4 8).
  - split; [reflexivity | split; [reflexivity | unfold HEADER_SIZE; cbn; lia]].
  - split; [reflexivity | split; reflexivity].
Defined.

(** A buffer returned by [ReadLatestFrame] is never empty: it holds between
    1 and [file_size_ - 68] bytes, fewer than [2^32], and they are the bytes
    of the mapping at some offset behind the header and a length prefix. *)
Theorem returned_frame_is_a_slice
        (native : byte_order) (this : SharedMemoryReader) (buf data : list byte) :
  opened this buf ->
  fst (ReadLatestFrame native this) = Return (Buffer data) ->
  0 < Z.of_nat (List.length data) < uint32_max /\
  exists off,
    HEADER_SIZE + 4 <= off /\
    off + Z.of_nat (List.length data) <= file_size_ this /\
    peek_u32 native buf (off - 4) = Some (Z.of_nat (List.length data)) /\
    bytes_at buf off (Z.of_nat (List.length data)) = Some data.
Proof.
  intros Hopen Hret.
  pose proof (ReadLatestFrame_shape native this buf Hopen) as Hshape.
  remember (ReadLatestFrame native this) as r eqn:Er.
  destruct Hshape as [k R S Hhdr H0 | k R S Hhdr Hpos HR0
                      | k R S Hhdr Hpos HRpos Hout
                      | k R S L Hhdr Hpos HRpos Hin HL Hrej
                      | k R S L Hhdr Hpos HRpos HL HLpos Hfits];
    cbn [fst] in Hret; try discriminate.
  injection Hret as <-.
  destruct Hhdr as (Hk & HR & HS).
  destruct (header_ranges native buf k R S Hk HR HS) as (_ & _ & HSr).
  pose proof (latest_offset_low k R S HRpos (proj1 HSr)) as Hlow.
  destruct Hopen as (_ & Hsize & _).
  assert (bytes_at buf (latest_offset k R S + 4) L =
          Some (firstn (Z.to_nat L) (skipn (Z.to_nat (latest_offset k R S + 4)) buf)))
    as Hbytes by (apply bytes_at_inside; unfold HEADER_SIZE in *; lia).
  pose proof (bytes_at_Some _ _ _ _ Hbytes) as (_ & _ & _ & _ & Hlen).
  rewrite Hlen. split; [apply peek_u32_Some in HL; lia|].
  exists (latest_offset k R S + 4).
  replace (latest_offset k R S + 4 - 4) with (latest_offset k R S) by lia.
  repeat split; (assumption || lia).
Qed.

Lemma returned_frame_is_a_slice_witness :
  0 < Z.of_nat (List.length [xaa; xbb; xcc]) < uint32_max /\
  exists off,
    HEADER_SIZE + 4 <= off /\
    off + Z.of_nat (List.length [xaa; xbb; xcc]) <= file_size_ (demo_handle x05 x04 x03) /\
    peek_u32 LittleEndian (demo_mapping x05 x04 x03) (off - 4)
      = Some (Z.of_nat (List.length [xaa; xbb; xcc])) /\
    bytes_at (demo_mapping x05 x04 x03) off (Z.of_nat (List.length [xaa; xbb; xcc]))
      = Some [xaa; xbb; xcc].
Proof.
  apply (returned_frame_is_a_slice
           LittleEndian (demo_handle x05 x04 x03) (demo_mapping x05 x04 x03)
           [xaa; xbb; xcc]).
  - split; [reflexivity | split; [reflexivity | unfold HEADER_SIZE; cbn; lia]].
  - reflexivity.
Defined.

(** ** What a read depends on *)

Lemma agree_peek (bo : byte_order) (buf1 buf2 : list byte) (off : Z) :
  agree_on buf1 buf2 (Load off 4) ->
  peek_u32 bo buf2 off = peek_u32 bo buf1 off.
Proof.
  unfold agree_on, peek_u32. intros ->. reflexivity.
Qed.

Lemma agree_header (bo : byte_order) (buf1 buf2 : list byte) (rest : list access)
      (k R S : Z) :
  Forall (agree_on buf1 buf2) (header_loads ++ rest) ->
  decoded_header bo buf1 k R S ->
  decoded_header bo buf2 k R S /\ Forall (agree_on buf1 buf2) rest.
Proof.
  intros Hall (Hk & HR & HS). apply Forall_app in Hall. destruct Hall as (Hh & Hrest).
  unfold header_loads in Hh.
  pose proof (Forall_inv Hh) as H0. apply Forall_inv_tail in Hh.
  pose proof (Forall_inv Hh) as H1. apply Forall_inv_tail in Hh.
  pose proof (Forall_inv Hh) as H2.
  unfold decoded_header.
  rewrite (agree_peek bo _ _ _ H0), (agree_peek bo _ _ _ H1), (agree_peek bo _ _ _ H2).
  auto.
Qed.

Lemma bytes_at_behind (buf1 buf2 : list byte) (n : nat) (off len : Z) :
  List.length buf1 = List.length buf2 ->
  skipn n buf1 = skipn n buf2 ->
  Z.of_nat n <= off ->
  bytes_at buf1 off len = bytes_at buf2 off len.
Proof.
  intros Hlen Hskip Hoff. unfold bytes_at. rewrite Hlen.
  destruct ((0 <=? off) && (0 <=? len) && (off + len <=? Z.of_nat (List.length buf2)));
    [|reflexivity].
  replace (Z.to_nat off) with ((Z.to_nat off - n) + n)%nat by lia.
  rewrite <- !skipn_skipn, Hskip. reflexivity.
Qed.

(** The access log is complete: a mapping of the same size that holds the
    same bytes wherever [ReadLatestFrame] loaded makes it run the same way
    and return the same value, whatever its other bytes are ([frame_count],
    the geometry, the reserved bytes, the other slots). *)
Theorem read_depends_on_loaded_bytes
        (native : byte_order) (this1 this2 : SharedMemoryReader)
        (buf1 buf2 : list byte) :
  opened this1 buf1 -> opened this2 buf2 ->
  file_size_ this2 = file_size_ this1 ->
  Forall (agree_on buf1 buf2) (snd (ReadLatestFrame native this1)) ->
  ReadLatestFrame native this2 = ReadLatestFrame native this1.
Proof.
  intros Hopen1 Hopen2 Hsize Hagree.
  pose proof (ReadLatestFrame_shape native this1 buf1 Hopen1) as Hshape.
  remember (ReadLatestFrame native this1) as r eqn:Er.
  destruct Hshape as [k R S Hhdr H0 | k R S Hhdr Hpos HR0
                      | k R S Hhdr Hpos HRpos Hout
                      | k R S L Hhdr Hpos HRpos Hin HL Hrej
                      | k R S L Hhdr Hpos HRpos HL HLpos Hfits];
    cbn [snd] in Hagree;
    try rewrite <- (app_nil_r header_loads) in Hagree;
    destruct (agree_header native buf1 buf2 _ k R S Hagree Hhdr)
      as ((Hk & HR & HS) & Hrest).
  - exact (run_no_frame_yet native this2 buf2 Hopen2 k R S Hk HR HS H0).
  - exact (run_division_by_zero native this2 buf2 Hopen2 k R S Hk HR HS Hpos HR0).
  - rewrite <- Hsize in Hout.
    exact (run_prefix_out_of_bounds native this2 buf2 Hopen2 k R S Hk HR HS
             Hpos HRpos Hout).
  - rewrite <- Hsize in Hin, Hrej.
    pose proof (agree_peek native _ _ _ (Forall_inv Hrest)) as HL2.
    rewrite HL in HL2.
    exact (run_absent native this2 buf2 Hopen2 k R S Hk HR HS L Hpos HRpos Hin HL2 Hrej).
  - rewrite <- Hsize in Hfits.
    pose proof (agree_peek native _ _ _ (Forall_inv Hrest)) as HL2.
    rewrite HL in HL2.
    rewrite (run_frame native this2 buf2 Hopen2 k R S Hk HR HS L Hpos HRpos HL2
               HLpos Hfits).
    pose proof (Forall_inv (Forall_inv_tail Hrest)) as Hpayload.
    unfold agree_on in Hpayload.
    destruct Hopen1 as (_ & Hs1 & _). destruct Hopen2 as (_ & Hs2 & _).
    destruct (header_ranges native buf1 k R S (proj1 Hhdr) (proj1 (proj2 Hhdr))
                (proj2 (proj2 Hhdr))) as (_ & _ & HSr).
    pose proof (latest_offset_low k R S HRpos (proj1 HSr)) as Hlow.
    rewrite !bytes_at_inside in Hpayload by (unfold HEADER_SIZE in *; lia).
    injection Hpayload as <-. reflexivity.
Qed.

(** The same ring with other values of [frame_count] and of the bytes
    behind slot 0: the frame read is the same. *)
Lemma read_depends_on_loaded_bytes_witness :
  ReadLatestFrame LittleEndian
    {| path_ := "/tmp/other"; fd_ := 4;
       buf_ := Some (firstn 4 (demo_mapping x05 x04 x03) ++ [xff; xff; xff; xff] ++
                     firstn 64 (skipn 8 (demo_mapping x05 x04 x03)) ++ repeat xee 24);
       file_size_ := 96 |}
  = ReadLatestFrame LittleEndian (demo_handle x05 x04 x03).
Proof.
  apply (read_depends_on_loaded_bytes
           LittleEndian (demo_handle x05 x04 x03) _ (demo_mapping x05 x04 x03)
           (firstn 4 (demo_mapping x05 x04 x03) ++ [xff; xff; xff; xff] ++
            firstn 64 (skipn 8 (demo_mapping x05 x04 x03)) ++ repeat xee 24)).
  - split; [reflexivity | split; [reflexivity | unfold HEADER_SIZE; cbn; lia]].
  - split; [reflexivity | split; [reflexivity | unfold HEADER_SIZE; cbn; lia]].
  - reflexivity.
  - repeat constructor.
Defined.

(** The slot read depends on [write_index] through [(write_index - 1) mod
    ring_size] only: two rings with the same [ring_size > 0], the same
    [slot_size] and the same slots, whose write indexes are not 0 and select
    the same slot, give the same run, whether or not the index has wrapped. *)
Theorem congruent_indexes_read_the_same
        (native : byte_order) (this1 this2 : SharedMemoryReader)
        (buf1 buf2 : list byte) (k1 k2 R S : Z) :
  opened this1 buf1 -> opened this2 buf2 ->
  file_size_ this2 = file_size_ this1 ->
  skipn (Z.to_nat HEADER_SIZE) buf2 = skipn (Z.to_nat HEADER_SIZE) buf1 ->
  decoded_header native buf1 k1 R S ->
  decoded_header native buf2 k2 R S ->
  0 < k1 -> 0 < k2 -> 0 < R ->
  (k2 - 1) mod R = (k1 - 1) mod R ->
  ReadLatestFrame native this2 = ReadLatestFrame native this1.
Proof.
  intros Hopen1 Hopen2 Hsize Hslots Hhdr1 (Hk2 & HR2 & HS2) Hpos1 Hpos2 HRpos Hcong.
  assert (latest_offset k2 R S = latest_offset k1 R S) as Hoff
    by (unfold latest_offset, latest_slot; rewrite Hcong; reflexivity).
  destruct (header_ranges native buf2 k2 R S Hk2 HR2 HS2) as (_ & _ & HSr).
  pose proof (latest_offset_low k1 R S HRpos (proj1 HSr)) as Hlow.
  assert (List.length buf2 = List.length buf1) as Hlen.
  { destruct Hopen1 as (_ & Hs1 & _). destruct Hopen2 as (_ & Hs2 & _). lia. }
  assert (forall off len, HEADER_SIZE <= off ->
                          bytes_at buf2 off len = bytes_at buf1 off len) as Hsame.
  { intros off len Hge.
    apply (bytes_at_behind buf2 buf1 (Z.to_nat HEADER_SIZE)); assumption. }
  assert (forall off, HEADER_SIZE <= off ->
                      peek_u32 native buf2 off = peek_u32 native buf1 off) as Hpeek.
  { intros off Hge. unfold peek_u32. rewrite (Hsame off 4 Hge). reflexivity. }
  pose proof (ReadLatestFrame_shape native this1 buf1 Hopen1) as Hshape.
  remember (ReadLatestFrame native this1) as r eqn:Er.
  destruct Hshape as [k R' S' Hhdr H0 | k R' S' Hhdr Hpos HR0
                      | k R' S' Hhdr Hpos HRpos' Hout
                      | k R' S' L Hhdr Hpos HRpos' Hin HL Hrej
                      | k R' S' L Hhdr Hpos HRpos' HL HLpos Hfits];
    destruct (decoded_header_unique native buf1 k1 R S k R' S' Hhdr1 Hhdr)
      as (-> & -> & ->); try lia.
  - rewrite <- Hsize, <- Hoff in Hout.
    exact (run_prefix_out_of_bounds native this2 buf2 Hopen2 k2 R S Hk2 HR2 HS2
             Hpos2 HRpos Hout).
  - rewrite <- (Hpeek _ Hlow) in HL. rewrite <- Hsize, <- Hoff in *.
    exact (run_absent native this2 buf2 Hopen2 k2 R S Hk2 HR2 HS2 L Hpos2 HRpos
             Hin HL Hrej).
  - rewrite <- (Hpeek _ Hlow) in HL. rewrite <- Hsize in Hfits.
    assert (firstn (Z.to_nat L) (skipn (Z.to_nat (latest_offset k1 R S + 4)) buf2)
            = firstn (Z.to_nat L) (skipn (Z.to_nat (latest_offset k1 R S + 4)) buf1))
      as Hdata.
    { destruct Hopen2 as (_ & Hs2 & _).
      assert (Some (firstn (Z.to_nat L)
                      (skipn (Z.to_nat (latest_offset k1 R S + 4)) buf2))
              = Some (firstn (Z.to_nat L)
                        (skipn (Z.to_nat (latest_offset k1 R S + 4)) buf1))) as E.
      { rewrite <- !bytes_at_inside by (unfold HEADER_SIZE in *; lia).
        apply Hsame. lia. }
      injection E as E. exact E. }
    rewrite <- Hoff in HL, Hfits.
    rewrite (run_frame native this2 buf2 Hopen2 k2 R S Hk2 HR2 HS2 L Hpos2 HRpos HL
               HLpos Hfits).
    rewrite Hoff, Hdata. reflexivity.
Qed.

(** [write_index = 5] in a ring of four slots reads what [write_index = 1]
    reads. *)
Lemma congruent_indexes_read_the_same_witness :
  ReadLatestFrame LittleEndian (demo_handle x05 x04 x03)
  = ReadLatestFrame LittleEndian (demo_handle x01 x04 x03).
Proof.
  apply (congruent_indexes_read_the_same
           LittleEndian (demo_handle x01 x04 x03) (demo_handle x05 x04 x03)
           (demo_mapping x01 x04 x03) (demo_mapping x05 x04 x03) 1 5 4 8).
  - split; [reflexivity | split; [reflexivity | unfold HEADER_SIZE; cbn; lia]].
  - split; [reflexivity | split; [reflexivity | unfold HEADER_SIZE; cbn; lia]].
  - reflexivity.
  - reflexivity.
  - split; [reflexivity | split; reflexivity].
  - split; [reflexivity | split; reflexivity].
  - lia.
  - lia.
  - lia.
  - reflexivity.
Defined.

(** ** [GetMetadata] and [GetWriteIndex] *)

(** On an open handle [GetMetadata] never throws: it returns an object
    whose six fields are the six header words as stored, each below [2^32],
    and it loads the first 24 bytes of the mapping and nothing else. *)
Theorem metadata_is_the_header
        (native : byte_order) (this : SharedMemoryReader) (buf : list byte) :
  opened this buf ->
  exists fields,
    GetMetadata native this
      = (Return (Object fields),
         [Load 0 4; Load 4 4; Load 8 4; Load 12 4; Load 16 4; Load 20 4]) /\
    List.map fst fields
      = ["writeIndex"; "frameCount"; "slotSize"; "ringSize"; "width"; "height"]%string /\
    option_map Number (peek_u32 native buf 0) = field "writeIndex" fields /\
    option_map Number (peek_u32 native buf 4) = field "frameCount" fields /\
    option_map Number (peek_u32 native buf 8) = field "slotSize" fields /\
    option_map Number (peek_u32 native buf 12) = field "ringSize" fields /\
    option_map Number (peek_u32 native buf 16) = field "width" fields /\
    option_map Number (peek_u32 native buf 20) = field "height" fields /\
    Forall (fun nv => exists v, snd nv = Number v /\ 0 <= v < uint32_max) fields.
Proof.
  intros Hopen.
  destruct (header_field native this buf ShmHeader.write_index Hopen)
    as (w & Hw & Hwr); [unfold ShmHeader.write_index, HEADER_SIZE; lia ..|].
  destruct (header_field native this buf ShmHeader.frame_count Hopen)
    as (c & Hc & Hcr); [unfold ShmHeader.frame_count, HEADER_SIZE; lia ..|].
  destruct (header_field native this buf ShmHeader.slot_size Hopen)
    as (s & Hs & Hsr); [unfold ShmHeader.slot_size, HEADER_SIZE; lia ..|].
  destruct (header_field native this buf ShmHeader.ring_size Hopen)
    as (r & Hr & Hrr); [unfold ShmHeader.ring_size, HEADER_SIZE; lia ..|].
  destruct (header_field native this buf ShmHeader.width Hopen)
    as (x & Hx & Hxr); [unfold ShmHeader.width, HEADER_SIZE; lia ..|].
  destruct (header_field native this buf ShmHeader.height Hopen)
    as (y & Hy & Hyr); [unfold ShmHeader.height, HEADER_SIZE; lia ..|].
  rewrite (GetMetadata_run native this buf w c s r x y (proj1 Hopen) Hw Hc Hs Hr Hx Hy).
  unfold ShmHeader.write_index, ShmHeader.frame_count, ShmHeader.slot_size,
    ShmHeader.ring_size, ShmHeader.width, ShmHeader.height in *.
  rewrite Hw, Hc, Hs, Hr, Hx, Hy.
  eexists. split; [reflexivity|].
  repeat (split; [reflexivity|]).
  repeat constructor; eexists; (split; [reflexivity | assumption]).
Qed.

Lemma metadata_is_the_header_witness :
  exists fields,
    GetMetadata LittleEndian (demo_handle x05 x04 x03)
      = (Return (Object fields),
         [Load 0 4; Load 4 4; Load 8 4; Load 12 4; Load 16 4; Load 20 4]) /\
    List.map fst fields
      = ["writeIndex"; "frameCount"; "slotSize"; "ringSize"; "width"; "height"]%string /\
    option_map Number (peek_u32 LittleEndian (demo_mapping x05 x04 x03) 0)
      = field "writeIndex" fields /\
    option_map Number (peek_u32 LittleEndian (demo_mapping x05 x04 x03) 4)
      = field "frameCount" fields /\
    option_map Number (peek_u32 LittleEndian (demo_mapping x05 x04 x03) 8)
      = field "slotSize" fields /\
    option_map Number (peek_u32 LittleEndian (demo_mapping x05 x04 x03) 12)
      = field "ringSize" fields /\
    option_map Number (peek_u32 LittleEndian (demo_mapping x05 x04 x03) 16)
      = field "width" fields /\
    option_map Number (peek_u32 LittleEndian (demo_mapping x05 x04 x03) 20)
      = field "height" fields /\
    Forall (fun nv => exists v, snd nv = Number v /\ 0 <= v < uint32_max) fields.
Proof.
  apply (metadata_is_the_header
           LittleEndian (demo_handle x05 x04 x03) (demo_mapping x05 x04 x03)).
  split; [reflexivity | split; [reflexivity | unfold HEADER_SIZE; cbn; lia]].
Defined.



(** ** Attaching *)

(** The constructor returns without throwing exactly when its first argument
    is a string, [open] gives a descriptor, [fstat] succeeds with a size of at
    least [HEADER_SIZE], and [mmap] of that size succeeds. *)
Theorem attach_succeeds_iff (env : os_env) (info : list napi_value) :
  snd (fst (construct env info)) = None <->
  exists path rest st_size,
    info = JsString path :: rest /\
    0 <= os_open env path /\
    os_fstat env (os_open env path) = Some st_size /\
    HEADER_SIZE <= st_size /\
    os_mmap env (size_t st_size) (os_open env path) <> None.
Proof.
  unfold construct. split.
  - destruct info as [|[| |n|path|data|fields] rest]; try discriminate.
    cbn [path_ fd_ set_path set_fd fresh].
    destruct (Z.ltb_spec (os_open env path) 0) as [Hneg|Hfd]; [discriminate|].
    destruct (os_fstat env (os_open env path)) as [st_size|] eqn:Est; [|discriminate].
    destruct (Z.ltb_spec st_size HEADER_SIZE) as [|Hmin]; [discriminate|].
    cbn [file_size_ fd_ set_file_size set_buf set_fd path_ buf_].
    destruct (os_mmap env (size_t st_size) (os_open env path)) as [mapped|] eqn:Em;
      [|discriminate].
    intros _. exists path, rest, st_size. rewrite Em.
    repeat split; (assumption || discriminate).
  - intros (path & rest & st_size & -> & Hfd & Est & Hmin & Hmap).
    cbn [path_ fd_ set_path set_fd fresh].
    destruct (Z.ltb_spec (os_open env path) 0); [lia|].
    rewrite Est.
    destruct (Z.ltb_spec st_size HEADER_SIZE); [lia|].
    cbn [file_size_ fd_ set_file_size set_buf set_fd path_ buf_].
    destruct (os_mmap env (size_t st_size) (os_open env path)); [reflexivity|].
    contradiction.
Qed.

(** When the constructor does not throw and the system is sound ([st_size]
    is an [off_t], [mmap] maps what it was asked for), the object is an open
    handle on the whole file: [file_size_] is the size [fstat] reported, the
    mapping has that many bytes, and the system calls were [open], [fstat]
    and one successful [mmap] of that length, with nothing released. *)
Theorem attach_maps_the_whole_file
        (env : os_env) (info : list napi_value)
        (this : SharedMemoryReader) (t : list syscall) :
  os_sound env ->
  construct env info = (this, None, t) ->
  exists path rest buf,
    info = JsString path :: rest /\
    path_ this = path /\
    fd_ this = os_open env path /\
    os_fstat env (fd_ this) = Some (file_size_ this) /\
    os_mmap env (file_size_ this) (fd_ this) = Some buf /\
    opened this buf /\
    t = [sys_open path (fd_ this); sys_fstat (fd_ this);
         sys_mmap (file_size_ this) (fd_ this) true].
Proof.
  intros (Hstat & Hmap). unfold construct.
  destruct info as [|[| |n|path|data|fields] rest]; try discriminate.
  cbn [path_ fd_ set_path set_fd fresh].
  destruct (Z.ltb_spec (os_open env path) 0) as [Hneg|Hfd]; [discriminate|].
  destruct (os_fstat env (os_open env path)) as [st_size|] eqn:Est; [|discriminate].
  destruct (Z.ltb_spec st_size HEADER_SIZE) as [|Hmin]; [discriminate|].
  cbn [file_size_ fd_ set_file_size set_buf set_fd path_ buf_].
  destruct (os_mmap env (size_t st_size) (os_open env path)) as [mapped|] eqn:Em;
    [|discriminate].
  intros [= <- <-]. exists path, rest, mapped.
  pose proof (Hstat _ _ Est) as Hoff. pose proof (Hmap _ _ _ Em) as Hlen.
  assert (size_t st_size = st_size) as Hcast
    by (unfold size_t, size_max, HEADER_SIZE in *; apply Z.mod_small; lia).
  unfold opened. cbn [buf_ fd_ file_size_ path_ set_buf set_fd set_file_size set_path].
  rewrite Hcast in *.
  repeat split; (reflexivity || assumption || lia).
Qed.

Lemma attach_maps_the_whole_file_witness :
  exists path rest buf,
    demo_frames = JsString path :: rest /\
    path_ (demo_handle x05 x04 x03) = path /\
    fd_ (demo_handle x05 x04 x03) = os_open (strict_env x05 x04 x03) path /\
    os_fstat (strict_env x05 x04 x03) (fd_ (demo_handle x05 x04 x03))
      = Some (file_size_ (demo_handle x05 x04 x03)) /\
    os_mmap (strict_env x05 x04 x03) (file_size_ (demo_handle x05 x04 x03))
            (fd_ (demo_handle x05 x04 x03)) = Some buf /\
    opened (demo_handle x05 x04 x03) buf /\
    [sys_open "/tmp/frames" 3; sys_fstat 3; sys_mmap 96 3 true]
      = [sys_open path (fd_ (demo_handle x05 x04 x03));
         sys_fstat (fd_ (demo_handle x05 x04 x03));
         sys_mmap (file_size_ (demo_handle x05 x04 x03))
                  (fd_ (demo_handle x05 x04 x03)) true].
Proof.
  apply (attach_maps_the_whole_file
           (strict_env x05 x04 x03) demo_frames (demo_handle x05 x04 x03)
           [sys_open "/tmp/frames" 3; sys_fstat 3; sys_mmap 96 3 true]).
  - split.
    + intros fd sz. cbn. destruct (fd =? 3); [intros [= <-]; lia | discriminate].
    + intros len fd mapped. cbn.
      destruct (fd =? 3); [|discriminate].
      destruct (Z.eqb_spec len 96); [|discriminate].
      intros [= <-]. cbn. lia.
  - reflexivity.
Defined.

(** The exception the constructor throws names what went wrong, and each
    failure stops there: without a string argument no system call is made;
    when [open] fails nothing else is tried; when [fstat] fails or the file
    is shorter than the header the descriptor is closed and [mmap] is never
    called; when [mmap] fails the descriptor is closed. *)
Theorem attach_failure_reasons
        (env : os_env) (info : list napi_value)
        (this : SharedMemoryReader) (exn : js_exception) (t : list syscall) :
  construct env info = (this, Some exn, t) ->
  (exn = JsTypeError "Expected string path argument" /\
   (forall path rest, info <> JsString path :: rest) /\
   this = fresh /\ t = []) \/
  exists path rest,
    info = JsString path :: rest /\ path_ this = path /\
    ((os_open env path < 0 /\
      exn = JsError (String.append "Failed to open shared memory file: " path) /\
      t = [sys_open path (os_open env path)]) \/
     (0 <= os_open env path /\
      (os_fstat env (os_open env path) = None \/
       exists st_size, os_fstat env (os_open env path) = Some st_size /\
                       st_size < HEADER_SIZE) /\
      exn = JsError "Shared memory file too small or stat failed" /\
      t = [sys_open path (os_open env path); sys_fstat (os_open env path);
           sys_close (os_open env path)]) \/
     (0 <= os_open env path /\
      (exists st_size, os_fstat env (os_open env path) = Some st_size /\
                       HEADER_SIZE <= st_size /\
                       os_mmap env (size_t st_size) (os_open env path) = None /\
                       t = [sys_open path (os_open env path);
                            sys_fstat (os_open env path);
                            sys_mmap (size_t st_size) (os_open env path) false;
                            sys_close (os_open env path)]) /\
      exn = JsError "mmap failed for shared memory file")).
Proof.
  unfold construct.
  destruct info as [|[| |n|path|data|fields] rest];
    try (intros [= <- <- <-]; left; repeat split; discriminate).
  cbn [path_ fd_ set_path set_fd fresh].
  intros Hrun. right. exists path, rest. split; [reflexivity|].
  destruct (Z.ltb_spec (os_open env path) 0) as [Hneg|Hfd].
  { injection Hrun as <- <- <-. split; [reflexivity|]. left. auto. }
  destruct (os_fstat env (os_open env path)) as [st_size|] eqn:Est.
  - destruct (Z.ltb_spec st_size HEADER_SIZE) as [Hshort|Hmin].
    + injection Hrun as <- <- <-. split; [reflexivity|]. right. left.
      repeat split; try (reflexivity || assumption).
      right. exists st_size. auto.
    + cbn [file_size_ fd_ set_file_size set_buf set_fd path_ buf_] in Hrun.
      destruct (os_mmap env (size_t st_size) (os_open env path)) as [mapped|] eqn:Em;
        [discriminate|].
      injection Hrun as <- <- <-. split; [reflexivity|]. right. right.
      repeat split; try (reflexivity || assumption).
      exists st_size. auto.
  - injection Hrun as <- <- <-. split; [reflexivity|]. right. left.
    repeat split; try (reflexivity || assumption). left. reflexivity.
Qed.

(** A file of 10 bytes: the descriptor is closed again and nothing is mapped. *)
Lemma attach_failure_reasons_witness :
  (JsError "Shared memory file too small or stat failed"
   = JsTypeError "Expected string path argument" /\
   (forall path rest, demo_frames <> JsString path :: rest) /\
   {| path_ := "/tmp/frames"; fd_ := -1; buf_ := None; file_size_ := 0 |} = fresh /\
   [sys_open "/tmp/frames" 3; sys_fstat 3; sys_close 3] = []) \/
  exists path rest,
    demo_frames = JsString path :: rest /\
    path_ {| path_ := "/tmp/frames"; fd_ := -1; buf_ := None; file_size_ := 0 |} = path /\
    ((os_open short_file_env path < 0 /\
      JsError "Shared memory file too small or stat failed"
      = JsError (String.append "Failed to open shared memory file: " path) /\
      [sys_open "/tmp/frames" 3; sys_fstat 3; sys_close 3]
      = [sys_open path (os_open short_file_env path)]) \/
     (0 <= os_open short_file_env path /\
      (os_fstat short_file_env (os_open short_file_env path) = None \/
       exists st_size, os_fstat short_file_env (os_open short_file_env path) = Some st_size /\
                       st_size < HEADER_SIZE) /\
      JsError "Shared memory file too small or stat failed"
      = JsError "Shared memory file too small or stat failed" /\
      [sys_open "/tmp/frames" 3; sys_fstat 3; sys_close 3]
      = [sys_open path (os_open short_file_env path);
         sys_fstat (os_open short_file_env path);
         sys_close (os_open short_file_env path)]) \/
     (0 <= os_open short_file_env path /\
      (exists st_size, os_fstat short_file_env (os_open short_file_env path) = Some st_size /\
                       HEADER_SIZE <= st_size /\
                       os_mmap short_file_env (size_t st_size)
                               (os_open short_file_env path) = None /\
                       [sys_open "/tmp/frames" 3; sys_fstat 3; sys_close 3]
                       = [sys_open path (os_open short_file_env path);
                          sys_fstat (os_open short_file_env path);
                          sys_mmap (size_t st_size) (os_open short_file_env path) false;
                          sys_close (os_open short_file_env path)]) /\
      JsError "Shared memory file too small or stat failed"
      = JsError "mmap failed for shared memory file")).
Proof.
  apply (attach_failure_reasons
           short_file_env demo_frames
           {| path_ := "/tmp/frames"; fd_ := -1; buf_ := None; file_size_ := 0 |}
           (JsError "Shared memory file too small or stat failed")
           [sys_open "/tmp/frames" 3; sys_fstat 3; sys_close 3]).
  reflexivity.
Defined.

(** ** Descriptors and mappings over the life of an object *)

Lemma open_fds_app (t1 t2 : list syscall) (held : list Z) :
  open_fds (t1 ++ t2) held = open_fds t2 (open_fds t1 held).
Proof.
  revert held. induction t1 as [|c t1 IH]; intros held; [reflexivity|].
  destruct c; cbn [app open_fds]; apply IH.
Qed.

Lemma live_mappings_app (t1 t2 : list syscall) (held : nat) :
  live_mappings (t1 ++ t2) held = live_mappings t2 (live_mappings t1 held).
Proof.
  revert held. induction t1 as [|c t1 IH]; intros held; [reflexivity|].
  destruct c as [| | len fd [|] | |]; cbn [app live_mappings]; apply IH.
Qed.

(** A mapping goes with a descriptor, and no mapping with none. *)
Lemma construct_holds (env : os_env) (info : list napi_value)
      (this : SharedMemoryReader) (exn : option js_exception) (t : list syscall) :
  construct env info = (this, exn, t) ->
  open_fds t [] = held_fds this /\
  live_mappings t 0%nat = held_mappings this /\
  match buf_ this with Some _ => 0 <= fd_ this | None => fd_ this < 0 end.
Proof.
  destruct exn as [e|].
  - intros Hfail.
    destruct (construct_failure env info this e t Hfail) as (Hbuf & Hfd & Hfds & Hmaps).
    unfold held_fds, held_mappings. rewrite Hbuf. auto.
  - unfold construct.
    destruct info as [|[| |n|path|data|fields] rest]; try discriminate.
    cbn [path_ fd_ set_path set_fd fresh].
    destruct (Z.ltb_spec (os_open env path) 0) as [Hneg|Hfd]; [discriminate|].
    destruct (os_fstat env (os_open env path)) as [st_size|]; [|discriminate].
    destruct (Z.ltb_spec st_size HEADER_SIZE); [discriminate|].
    cbn [file_size_ fd_ set_file_size set_buf set_fd path_ buf_].
    destruct (os_mmap env (size_t st_size) (os_open env path)); [|discriminate].
    intros [= <- <-].
    unfold held_fds, held_mappings.
    cbn [buf_ fd_ set_buf set_file_size set_fd open_fds live_mappings app].
    destruct (Z.ltb_spec (os_open env path) 0); [lia|]. auto.
Qed.

Lemma invoke_holds (bo : byte_order) (m : method) (this : SharedMemoryReader) :
  match buf_ this with Some _ => 0 <= fd_ this | None => fd_ this < 0 end ->
  let this' := fst (fst (invoke bo m this)) in
  let t := snd (invoke bo m this) in
  open_fds t (held_fds this) = held_fds this' /\
  live_mappings t (held_mappings this) = held_mappings this' /\
  match buf_ this' with Some _ => 0 <= fd_ this' | None => fd_ this' < 0 end /\
  (buf_ this = None -> this' = this /\ t = []) /\
  (m = close -> buf_ this' = None) /\
  (m <> close -> this' = this /\ t = []).
Proof.
  intros Hpair. destruct m; cbn [invoke fst snd open_fds live_mappings];
    try (repeat split; (reflexivity || assumption || discriminate || contradiction)).
  destruct this as [p fd [b|] fs]; cbn [buf_ fd_] in Hpair;
    unfold Close, DoClose, held_fds, held_mappings;
    cbn [buf_ fd_ file_size_ set_buf set_fd fst snd app];
    destruct (Z.leb_spec 0 fd); try lia;
    cbn [buf_ fd_ fst snd open_fds live_mappings Nat.pred app].
  - rewrite remove_only.
    repeat split; (reflexivity || lia || discriminate || contradiction).
  - repeat split; (reflexivity || lia || discriminate || contradiction).
Qed.

Lemma invoke_all_holds (bo : byte_order) (ms : list method) (this : SharedMemoryReader) :
  match buf_ this with Some _ => 0 <= fd_ this | None => fd_ this < 0 end ->
  let last := fst (invoke_all bo ms this) in
  let t := snd (invoke_all bo ms this) in
  open_fds t (held_fds this) = held_fds last /\
  live_mappings t (held_mappings this) = held_mappings last /\
  match buf_ last with Some _ => 0 <= fd_ last | None => fd_ last < 0 end /\
  (buf_ this = None -> last = this /\ t = []) /\
  (In close ms -> buf_ last = None) /\
  (~ In close ms -> last = this /\ t = []).
Proof.
  revert this. induction ms as [|m ms IH]; intros this Hpair.
  - cbn. repeat split; (reflexivity || assumption || contradiction).
  - cbn [invoke_all].
    destruct (invoke_holds bo m this Hpair) as (Hf & Hm & Hp & Hnone & Hclose & Hother).
    destruct (invoke bo m this) as [[this' r] t1] eqn:Einv. cbn [fst snd] in *.
    destruct (IH this' Hp) as (Hf' & Hm' & Hp' & Hnone' & Hclose' & Hother').
    destruct (invoke_all bo ms this') as [last t2] eqn:Eall. cbn [fst snd] in *.
    rewrite open_fds_app, live_mappings_app, Hf, Hm.
    split; [assumption|]. split; [assumption|]. split; [assumption|].
    split; [|split].
    + intros Hb. destruct (Hnone Hb) as (-> & ->).
      destruct (Hnone' Hb) as (-> & ->). auto.
    + intros [->|Hin]; [|auto].
      destruct (Hnone' (Hclose eq_refl)) as (-> & _). auto.
    + intros Hnot.
      assert (m <> close) as Hm0 by (intros ->; apply Hnot; left; reflexivity).
      destruct (Hother Hm0) as (-> & ->).
      destruct Hother' as (-> & ->); [intros Hin; apply Hnot; right; exact Hin|].
      auto.
Qed.

Lemma releases_held_app (t1 t2 : list syscall) (fds : list Z) (maps : nat) :
  releases_held (t1 ++ t2) fds maps
  = releases_held t1 fds maps
    && releases_held t2 (open_fds t1 fds) (live_mappings t1 maps).
Proof.
  revert fds maps. induction t1 as [|c t1 IH]; intros fds maps; [reflexivity|].
  destruct c as [p fd | fd | len fd [|] | len | fd];
    cbn [app releases_held open_fds live_mappings];
    rewrite IH; try reflexivity; apply andb_assoc.
Qed.

Lemma closes_held (fd : Z) : existsb (Z.eqb fd) [fd] = true.
Proof.
  cbn. rewrite Z.eqb_refl. reflexivity.
Qed.

Lemma construct_releases (env : os_env) (info : list napi_value)
      (this : SharedMemoryReader) (exn : option js_exception) (t : list syscall) :
  construct env info = (this, exn, t) -> releases_held t [] 0%nat = true.
Proof.
  unfold construct.
  destruct info as [|[| |n|path|data|fields] rest];
    try (intros [= <- <- <-]; reflexivity).
  cbn [path_ fd_ set_path set_fd fresh].
  destruct (Z.ltb_spec (os_open env path) 0) as [Hneg|Hfd].
  { intros [= <- <- <-]. cbn [releases_held].
    destruct (Z.ltb_spec (os_open env path) 0); [reflexivity | lia]. }
  destruct (os_fstat env (os_open env path)) as [st_size|].
  - destruct (Z.ltb_spec st_size HEADER_SIZE).
    + intros [= <- <- <-]. cbn [releases_held app fd_ path_ buf_ file_size_ set_fd set_buf set_file_size set_path].
      destruct (Z.ltb_spec (os_open env path) 0); [lia|].
      cbn [releases_held]. rewrite closes_held. reflexivity.
    + cbn [file_size_ fd_ set_file_size set_buf set_fd path_ buf_].
      destruct (os_mmap env (size_t st_size) (os_open env path)).
      * intros [= <- <- <-]. cbn [releases_held app fd_ path_ buf_ file_size_ set_fd set_buf set_file_size set_path].
      destruct (Z.ltb_spec (os_open env path) 0); [lia|]. reflexivity.
      * intros [= <- <- <-]. cbn [releases_held app fd_ path_ buf_ file_size_ set_fd set_buf set_file_size set_path].
      destruct (Z.ltb_spec (os_open env path) 0); [lia|].
        cbn [releases_held]. rewrite closes_held. reflexivity.
  - intros [= <- <- <-]. cbn [releases_held app fd_ path_ buf_ file_size_ set_fd set_buf set_file_size set_path].
      destruct (Z.ltb_spec (os_open env path) 0); [lia|].
    cbn [releases_held]. rewrite closes_held. reflexivity.
Qed.

Lemma invoke_releases (bo : byte_order) (m : method) (this : SharedMemoryReader) :
  match buf_ this with Some _ => 0 <= fd_ this | None => fd_ this < 0 end ->
  releases_held (snd (invoke bo m this)) (held_fds this) (held_mappings this) = true.
Proof.
  intros Hpair. destruct m; cbn [invoke snd releases_held]; try reflexivity.
  destruct this as [p fd [b|] fs]; cbn [buf_ fd_] in Hpair;
    unfold Close, DoClose, held_fds, held_mappings;
    cbn [buf_ fd_ file_size_ set_buf set_fd fst snd app];
    destruct (Z.leb_spec 0 fd); try lia;
    cbn [buf_ fd_ snd app releases_held Nat.pred Nat.ltb Nat.leb andb].
  - rewrite closes_held. reflexivity.
  - reflexivity.
Qed.

Lemma invoke_all_releases (bo : byte_order) (ms : list method)
      (this : SharedMemoryReader) :
  match buf_ this with Some _ => 0 <= fd_ this | None => fd_ this < 0 end ->
  releases_held (snd (invoke_all bo ms this)) (held_fds this) (held_mappings this)
  = true.
Proof.
  revert this. induction ms as [|m ms IH]; intros this Hpair; [reflexivity|].
  cbn [invoke_all].
  pose proof (invoke_releases bo m this Hpair) as Hrel.
  destruct (invoke_holds bo m this Hpair) as (Hf & Hm & Hp & _).
  destruct (invoke bo m this) as [[this' r] t1]. cbn [fst snd] in *.
  specialize (IH this' Hp).
  destruct (invoke_all bo ms this') as [last t2]. cbn [fst snd] in *.
  rewrite releases_held_app, Hrel, Hf, Hm, IH. reflexivity.
Qed.

(** A trace that releases the mapping and the descriptor twice is refused,
    one that releases them once is not. *)
Example double_release_is_refused :
  releases_held [sys_open "/tmp/frames" 3; sys_fstat 3; sys_mmap 96 3 true;
                 sys_munmap 96; sys_close 3; sys_munmap 96; sys_close 3]
                [] 0%nat = false /\
  releases_held [sys_open "/tmp/frames" 3; sys_fstat 3; sys_mmap 96 3 true;
                 sys_munmap 96; sys_close 3]
                [] 0%nat = true.
Proof. split; reflexivity. Qed.

(** Whatever the constructor did and whatever methods are called afterwards,
    in any order and number, the system calls made leave open exactly what the
    object holds: one descriptor and one mapping while [buf_] is set, nothing
    otherwise, so nothing is leaked; and every [close] and [munmap] among
    them, the destructor's included, releases something that is held at that
    moment, so nothing is released twice.  Without a [close] among the calls
    the object is what the constructor left; after a [close] it holds
    nothing; and the destructor's [DoClose] releases whatever is left. *)
Theorem calls_never_leak
        (native : byte_order) (env : os_env) (info : list napi_value)
        (ms : list method) :
  let this0 := fst (fst (construct env info)) in
  let t0 := snd (construct env info) in
  let this := fst (invoke_all native ms this0) in
  let t := snd (invoke_all native ms this0) in
  open_fds (t0 ++ t) [] = held_fds this /\
  live_mappings (t0 ++ t) 0%nat = held_mappings this /\
  (In close ms -> buf_ this = None) /\
  (~ In close ms -> this = this0 /\ t = []) /\
  open_fds (t0 ++ t ++ snd (DoClose this)) [] = [] /\
  live_mappings (t0 ++ t ++ snd (DoClose this)) 0%nat = 0%nat /\
  releases_held (t0 ++ t ++ snd (DoClose this)) [] 0%nat = true.
Proof.
  intros this0 t0 this t.
  destruct (construct env info) as [[h exn] tc] eqn:Ec.
  cbn [fst snd] in this0, t0. subst this0 t0.
  destruct (construct_holds env info h exn tc Ec) as (Hf0 & Hm0 & Hp0).
  destruct (invoke_all_holds native ms h Hp0) as (Hf & Hm & Hp & _ & Hclose & Hother).
  fold this in Hf, Hm, Hp, Hclose, Hother. fold t in Hf, Hm, Hother.
  assert (open_fds (tc ++ t) [] = held_fds this) as Hfds
    by (rewrite open_fds_app, Hf0; exact Hf).
  assert (live_mappings (tc ++ t) 0%nat = held_mappings this) as Hmaps
    by (rewrite live_mappings_app, Hm0; exact Hm).
  split; [exact Hfds|]. split; [exact Hmaps|].
  split; [exact Hclose|]. split; [exact Hother|].
  rewrite !app_assoc, open_fds_app, live_mappings_app, Hfds, Hmaps.
  destruct (invoke_holds native close this Hp) as (Hfc & Hmc & _ & _ & Hnone & _).
  cbn [invoke] in Hfc, Hmc, Hnone. unfold Close in Hfc, Hmc, Hnone.
  destruct (DoClose this) as [closed tclose] eqn:Ed. cbn [fst snd] in *.
  specialize (Hnone eq_refl).
  assert (held_fds closed = []) as Ef by (unfold held_fds; rewrite Hnone; reflexivity).
  assert (held_mappings closed = 0%nat) as Em
    by (unfold held_mappings; rewrite Hnone; reflexivity).
  rewrite Ef in Hfc. rewrite Em in Hmc.
  split; [assumption|]. split; [assumption|].
  rewrite releases_held_app, releases_held_app, Hfds, Hmaps.
  rewrite (construct_releases env info h exn tc Ec).
  pose proof (invoke_all_releases native ms h Hp0) as Hrel.
  rewrite Hf0, Hm0. fold this t in Hrel. rewrite Hrel.
  pose proof (invoke_releases native close this Hp) as Hrelc.
  cbn [invoke] in Hrelc. unfold Close in Hrelc. rewrite Ed in Hrelc.
  cbn [snd] in Hrelc. rewrite Hrelc. reflexivity.
Qed.

(** ** The object between construction and destruction *)

Lemma construct_consistent (env : os_env) (info : list napi_value)
      (this : SharedMemoryReader) (exn : option js_exception) (t : list syscall) :
  os_sound env -> construct env info = (this, exn, t) -> consistent this.
Proof.
  intros Hsound Hrun. unfold consistent. destruct exn as [e|].
  - destruct (construct_failure env info this e t Hrun) as (Hbuf & Hfd & _).
    rewrite Hbuf. exact Hfd.
  - destruct (construct_success env info this t Hsound Hrun)
      as (buf & (Hbuf & Hsize & Hmin) & Hfd & _).
    rewrite Hbuf. auto.
Qed.

Lemma consistent_opened (this : SharedMemoryReader) (buf : list byte) :
  consistent this -> buf_ this = Some buf -> opened this buf.
Proof.
  unfold consistent, opened. intros H E. rewrite E in H. tauto.
Qed.

Lemma step_consistent (bo : byte_order) (this this' : SharedMemoryReader) :
  consistent this -> step bo this this' -> consistent this'.
Proof.
  intros Hc Hstep. destruct Hstep as [m this | this buf buf' Hbuf Hlen].
  - destruct m; cbn [invoke fst]; try assumption.
    unfold Close. destruct (DoClose_state this) as (Hnone & Hfd).
    destruct (DoClose this) as [closed tc]. cbn [fst] in *.
    unfold consistent. rewrite Hnone. exact Hfd.
  - unfold consistent in *. rewrite Hbuf in Hc.
    cbn [buf_ set_buf file_size_ fd_]. rewrite Hlen. exact Hc.
Qed.

Lemma consistent_safe (bo : byte_order) (m : method) (this : SharedMemoryReader) :
  consistent this ->
  safe_run (file_size_ this) (snd (fst (invoke bo m this))).
Proof.
  intros Hc. destruct (buf_ this) as [buf|] eqn:Hbuf.
  - pose proof (consistent_opened this buf Hc Hbuf) as Hopen.
    pose proof Hopen as (_ & Hsize & _). rewrite Hsize.
    destruct m; cbn [invoke fst snd].
    + apply ReadLatestFrame_safe; assumption.
    + apply GetWriteIndex_safe; assumption.
    + apply GetMetadata_safe; assumption.
    + unfold Close. destruct (DoClose this). cbn [fst snd].
      split; [constructor | discriminate].
  - destruct m; cbn [invoke fst snd].
    + rewrite (closed_ReadLatestFrame bo this Hbuf). split; [constructor | discriminate].
    + rewrite (closed_GetWriteIndex bo this Hbuf). split; [constructor | discriminate].
    + rewrite (closed_GetMetadata bo this Hbuf). split; [constructor | discriminate].
    + unfold Close. destruct (DoClose this). cbn [fst snd].
      split; [constructor | discriminate].
Qed.

(** From the constructor on (whether it threw or not, on a sound system), and
    through any interleaving of method calls with the writer process
    overwriting the mapped bytes, the object stays consistent: it holds either
    a mapping of exactly [file_size_ >= HEADER_SIZE] bytes with a descriptor,
    or neither; and in every such state every method keeps all its loads
    inside the mapping. *)
Theorem reachable_states_are_safe
        (native : byte_order) (env : os_env) (info : list napi_value)
        (this0 this : SharedMemoryReader) (exn : option js_exception)
        (t : list syscall) :
  os_sound env ->
  construct env info = (this0, exn, t) ->
  steps native this0 this ->
  consistent this /\
  forall m, safe_run (file_size_ this) (snd (fst (invoke native m this))).
Proof.
  intros Hsound Hrun Hsteps.
  assert (consistent this) as Hc.
  { induction Hsteps as [this0 | this0 mid last Hsteps IH Hstep].
    - exact (construct_consistent env info this0 exn t Hsound Hrun).
    - exact (step_consistent native mid last (IH Hrun) Hstep). }
  split; [exact Hc|]. intros m. apply consistent_safe. exact Hc.
Qed.

(** Attach, read, let the writer put a header that lies about the ring
    ([ring_size = 255], a length prefix of 255), read again. *)
Lemma reachable_states_are_safe_witness :
  consistent (demo_handle xff xff xff) /\
  forall m, safe_run (file_size_ (demo_handle xff xff xff))
                     (snd (fst (invoke LittleEndian m (demo_handle xff xff xff)))).
Proof.
  apply (reachable_states_are_safe
           LittleEndian (strict_env x05 x04 x03) demo_frames
           (demo_handle x05 x04 x03) (demo_handle xff xff xff) None
           [sys_open "/tmp/frames" 3; sys_fstat 3; sys_mmap 96 3 true]).
  - split.
    + intros fd sz. cbn. destruct (fd =? 3); [intros [= <-]; lia | discriminate].
    + intros len fd mapped. cbn.
      destruct (fd =? 3); [|discriminate].
      destruct (Z.eqb_spec len 96); [|discriminate].
      intros [= <-]. cbn. lia.
  - reflexivity.
  - apply (steps_more LittleEndian _ (demo_handle x05 x04 x03)).
    + apply (steps_more LittleEndian _ (demo_handle x05 x04 x03)).
      * apply steps_none.
      * exact (step_invoke LittleEndian readLatestFrame (demo_handle x05 x04 x03)).
    + exact (step_writer LittleEndian (demo_handle x05 x04 x03)
               (demo_mapping x05 x04 x03) (demo_mapping xff xff xff)
               eq_refl eq_refl).
Defined.

(** A handle that holds nothing (closed, or left by a constructor that
    threw) is inert: no sequence of calls changes it or makes a system call,
    no call loads from memory, and no step leads anywhere else, so it can
    never be attached again. *)
Theorem closed_handle_is_inert (native : byte_order) (this : SharedMemoryReader) :
  buf_ this = None -> fd_ this < 0 ->
  (forall ms, invoke_all native ms this = (this, [])) /\
  (forall m, snd (snd (fst (invoke native m this))) = []) /\
  (forall this', steps native this this' -> this' = this).
Proof.
  intros Hbuf Hfd.
  assert (forall m, invoke native m this
                    = (this, snd (fst (invoke native m this)), [])) as Hcall.
  { intros m. destruct m; cbn [invoke fst snd]; try reflexivity.
    unfold Close. rewrite (DoClose_released this Hbuf Hfd). reflexivity. }
  split; [|split].
  - induction ms as [|m ms IH]; [reflexivity|].
    cbn [invoke_all]. rewrite (Hcall m), IH. reflexivity.
  - intros m. destruct m; cbn [invoke fst snd].
    + rewrite (closed_ReadLatestFrame native this Hbuf). reflexivity.
    + rewrite (closed_GetWriteIndex native this Hbuf). reflexivity.
    + rewrite (closed_GetMetadata native this Hbuf). reflexivity.
    + unfold Close. destruct (DoClose this). reflexivity.
  - intros this' Hsteps.
    induction Hsteps as [this | this mid last Hsteps IH Hstep]; [reflexivity|].
    specialize (IH Hbuf Hfd Hcall). subst mid.
    destruct Hstep as [m this | this buf buf' Hsome Hlen].
    + rewrite (Hcall m). reflexivity.
    + rewrite Hbuf in Hsome. discriminate.
Qed.

(** The object a constructor without arguments leaves. *)
Lemma closed_handle_is_inert_witness :
  (forall ms, invoke_all LittleEndian ms fresh = (fresh, [])) /\
  (forall m, snd (snd (fst (invoke LittleEndian m fresh))) = []) /\
  (forall this', steps LittleEndian fresh this' -> this' = fresh).
Proof.
  apply (closed_handle_is_inert LittleEndian fresh).
  - reflexivity.
  - cbn. lia.
Defined.

(** Closing a handle the constructor opened unmaps exactly the length that
    was mapped and closes exactly the descriptor that was opened, in that
    order; the object keeps its path and its [file_size_], with [buf_] null
    and [fd_ = -1]. *)
Theorem close_releases_what_was_attached
        (env : os_env) (info : list napi_value)
        (this : SharedMemoryReader) (t : list syscall) :
  construct env info = (this, None, t) ->
  exists path len,
    t = [sys_open path (fd_ this); sys_fstat (fd_ this); sys_mmap len (fd_ this) true] /\
    Close this
    = ({| path_ := path; fd_ := -1; buf_ := None; file_size_ := len |},
       Undefined,
       [sys_munmap len; sys_close (fd_ this)]).
Proof.
  unfold construct.
  destruct info as [|[| |n|path|data|fields] rest]; try discriminate.
  cbn [path_ fd_ set_path set_fd fresh].
  destruct (Z.ltb_spec (os_open env path) 0) as [Hneg|Hfd]; [discriminate|].
  destruct (os_fstat env (os_open env path)) as [st_size|]; [|discriminate].
  destruct (Z.ltb_spec st_size HEADER_SIZE); [discriminate|].
  cbn [file_size_ fd_ set_file_size set_buf set_fd path_ buf_].
  destruct (os_mmap env (size_t st_size) (os_open env path)) as [mapped|];
    [|discriminate].
  intros [= <- <-]. exists path, (size_t st_size).
  split; [reflexivity|].
  unfold Close, DoClose. cbn [buf_ fd_ file_size_ path_ set_buf set_fd set_file_size].
  destruct (Z.leb_spec 0 (os_open env path)); [reflexivity | lia].
Qed.

Lemma close_releases_what_was_attached_witness :
  exists path len,
    [sys_open "/tmp/frames" 3; sys_fstat 3; sys_mmap 96 3 true]
    = [sys_open path (fd_ (demo_handle x05 x04 x03));
       sys_fstat (fd_ (demo_handle x05 x04 x03));
       sys_mmap len (fd_ (demo_handle x05 x04 x03)) true] /\
    Close (demo_handle x05 x04 x03)
    = ({| path_ := path; fd_ := -1; buf_ := None; file_size_ := len |},
       Undefined,
       [sys_munmap len; sys_close (fd_ (demo_handle x05 x04 x03))]).
Proof.
  apply (close_releases_what_was_attached
           (demo_env x05 x04 x03) demo_frames (demo_handle x05 x04 x03)
           [sys_open "/tmp/frames" 3; sys_fstat 3; sys_mmap 96 3 true]).
  reflexivity.
Defined.
